(** * Magic Mock: quiz validation and the quiz-taking session

    A shallow embedding of the validation block of [generateQuiz] and of
    [translateText] (src/services/geminiService.ts), of the [QuizScreen]
    component (its state, handlers and timer effect, on JavaScript
    numbers), of [handleQuizComplete] (src/App.tsx) and of the handlers
    of the results and history screens, with the properties the
    specification states about them. *)

From Stdlib Require Import ZArith String Ascii Floats DecimalString DecimalPos.
From stdpp Require Import base option list gmap.

Set Warnings "-register-all".
Local Open Scope string_scope.
Local Open Scope Z_scope.

(** ** JavaScript strings

    A JavaScript string is a sequence of UTF-16 code units. *)

Module JsString.

Definition t : Type := list N.

(** Code units of an ASCII literal of the source. *)
Definition lit (s : string) : t := N_of_ascii <$> list_ascii_of_string s.

(** White space and line terminators of ECMAScript, the code units
    [String.prototype.trim] strips. *)
Definition isWhiteSpace (c : N) : bool :=
  bool_decide (c ∈ [0x0009; 0x000A; 0x000B; 0x000C; 0x000D; 0x0020; 0x00A0;
                    0x1680; 0x2028; 0x2029; 0x202F; 0x205F; 0x3000; 0xFEFF]%N)
  || ((0x2000 <=? c)%N && (c <=? 0x200A)%N).

Fixpoint trimStart (s : t) : t :=
  match s with
  | c :: s' => if isWhiteSpace c then trimStart s' else s
  | [] => []
  end.

Definition trimEnd (s : t) : t := reverse (trimStart (reverse s)).

Definition trim (s : t) : t := trimEnd (trimStart s).

End JsString.

Abbreviation jsstring := JsString.t.

(** A string literal of the source. *)
Definition js (s : string) : jsstring := JsString.lit s.
#[global] Arguments js : simpl never.

(** ** Values produced by [JSON.parse] *)

Inductive JValue : Type :=
| JNull
| JBool (b : bool)
| JNum (x : float)
| JStr (s : jsstring)
| JArr (items : list JValue)
| JObj (fields : gmap jsstring JValue).


(** ** Exceptions

    Values of [Result E A] are the outcomes of code that may throw: [Ok a]
    when it returns [a], [Throw e] when it throws [e]. *)

Inductive Result (E A : Type) : Type :=
| Ok (a : A)
| Throw (e : E).
Arguments Ok {E A} a.
Arguments Throw {E A} e.

#[global] Instance Result_ret {E} : MRet (Result E) := λ A a, Ok a.
#[global] Instance Result_bind {E} : MBind (Result E) := λ A B f r,
  match r with
  | Ok a => f a
  | Throw e => Throw e
  end.

Definition isOk {E A} (r : Result E A) : bool :=
  match r with Ok _ => true | Throw _ => false end.

(** The TypeError of a property read on [null] or [undefined]. *)
Inductive TypeError : Type := ReadOfNull | ReadOfUndefined.

(** ** The JavaScript operations the validator applies to parsed JSON *)

Module Json.

(** [undefined] is [None]; a value of the parse tree is [Some v]. *)
Definition maybe : Type := option JValue.

(** ToBoolean. *)
Definition truthy (o : maybe) : bool :=
  match o with
  | None | Some JNull => false
  | Some (JBool b) => b
  | Some (JNum x) => negb (PrimFloat.is_zero x || PrimFloat.is_nan x)
  | Some (JStr s) => negb (bool_decide (s = []))
  | Some (JArr _) | Some (JObj _) => true
  end.

(** [Array.isArray]. *)
Definition isArray (o : maybe) : bool :=
  match o with Some (JArr _) => true | _ => false end.

(** [v === s] for a string literal [s]. *)
Definition strictEqStr (o : maybe) (s : jsstring) : bool :=
  match o with Some (JStr t) => bool_decide (t = s) | _ => false end.

(** The property read [v.k], for the names the source reads (questions,
    questionType, options, correctAnswer, translations): none of them is
    a property of a primitive, of an array or of [Object.prototype], so
    the read gives [undefined] unless [v] is an object that has the
    property, and throws on [null]. *)
Definition getProp (v : JValue) (k : jsstring) : Result TypeError maybe :=
  match v with
  | JNull => Throw ReadOfNull
  | JObj fields => Ok (fields !! k)
  | _ => Ok None
  end.

(** The assignment [v.k = x] on an object. The validator assigns only to
    a question whose questionType it has just read as a string, which is
    an object; other values are left as they are. *)
Definition setProp (v : JValue) (k : jsstring) (x : JValue) : JValue :=
  match v with
  | JObj fields => JObj (<[k := x]> fields)
  | _ => v
  end.

(** SameValueZero, the comparison of [Array.prototype.includes]: by value
    on primitives (NaN equals NaN, +0 equals -0), by identity on arrays
    and objects. The two nodes compared here are distinct nodes of one
    parse tree, so an array or object is never the same as the other. *)
Definition sameValueZero (a b : maybe) : bool :=
  match a, b with
  | None, None => true
  | Some JNull, Some JNull => true
  | Some (JBool x), Some (JBool y) => bool_decide (x = y)
  | Some (JNum x), Some (JNum y) =>
      PrimFloat.eqb x y || (PrimFloat.is_nan x && PrimFloat.is_nan y)
  | Some (JStr x), Some (JStr y) => bool_decide (x = y)
  | _, _ => false
  end.

(** [items.includes(x)]. *)
Definition includes (items : list JValue) (x : maybe) : bool :=
  existsb (λ item, sameValueZero (Some item) x) items.

(** [typeof opt !== 'string' || opt.trim() === ''], the callback of
    [q.options.some]. *)
Definition badOption (opt : JValue) : bool :=
  match opt with
  | JStr s => bool_decide (JsString.trim s = [])
  | _ => true
  end.

End Json.

(** ** The validation block of [generateQuiz]

    One constructor per [throw] of the block (the TypeError is the one a
    property read on [null] raises). The enclosing [catch] rethrows every
    one of them as an [Error] with a message for the user, so a thrown
    error is a rejected candidate and no quiz is returned. *)

Inductive ValidationError : Type :=
| NullDereference
    (* the TypeError of [quizData.questions] or [q.questionType] on null *)
| MissingQuestionsArray
    (* "AI response is missing the 'questions' array." *)
| InvalidOptions
    (* "The AI generated a question with invalid options. ..." *)
| AnswerNotInOptions
    (* "The AI generated a question where the correct answer was not in
       the options list. ..." *)
| UnknownQuestionType (questionType : Json.maybe).
    (* "The AI generated an unknown question type: '...'. ..." *)

Definition liftRead {A} (r : Result TypeError A) : Result ValidationError A :=
  match r with
  | Ok a => Ok a
  | Throw _ => Throw NullDereference
  end.

(** [!q.options || !Array.isArray(q.options) || q.options.length !== 4
     || q.options.some(...)]. *)
Definition optionsInvalid (options : Json.maybe) : bool :=
  negb (Json.truthy options) || negb (Json.isArray options) ||
  match options with
  | Some (JArr items) =>
      negb (bool_decide (length items = 4%nat)) || existsb Json.badOption items
  | _ => true
  end.

(** [q.options.includes(q.correctAnswer)], once [q.options] is an array. *)
Definition answerInOptions (options correctAnswer : Json.maybe) : bool :=
  match options with
  | Some (JArr items) => Json.includes items correctAnswer
  | _ => false
  end.

(** The body of the loop, for one question [q]: the question as the loop
    leaves it, or the error thrown. *)
Definition validateQuestion (q : JValue) : Result ValidationError JValue :=
  questionType ← liftRead (Json.getProp q (js "questionType"));
  if Json.strictEqStr questionType (js "multiple_choice") then
    options ← liftRead (Json.getProp q (js "options"));
    if optionsInvalid options then Throw InvalidOptions
    else
      correctAnswer ← liftRead (Json.getProp q (js "correctAnswer"));
      if negb (answerInOptions options correctAnswer)
      then Throw AnswerNotInOptions
      else Ok q
  else if Json.strictEqStr questionType (js "fill_in_the_blank") then
    Ok (Json.setProp q (js "options") (JArr []))
  else Throw (UnknownQuestionType questionType).

(** [for (const q of quizData.questions)]: questions in order, stopping at
    the first throw. *)
Fixpoint validateQuestions (qs : list JValue) : Result ValidationError (list JValue) :=
  match qs with
  | [] => Ok []
  | q :: rest =>
      q' ← validateQuestion q;
      rest' ← validateQuestions rest;
      Ok (q' :: rest')
  end.

(** The whole block, from the parsed [quizData] to the value returned as
    the [Quiz]: the same object, its questions repaired in place. *)
Definition validateQuiz (quizData : JValue) : Result ValidationError JValue :=
  questions ← liftRead (Json.getProp quizData (js "questions"));
  if negb (Json.truthy questions) || negb (Json.isArray questions)
  then Throw MissingQuestionsArray
  else
    match questions with
    | Some (JArr qs) =>
        qs' ← validateQuestions qs;
        Ok (Json.setProp quizData (js "questions") (JArr qs'))
    | _ => Throw MissingQuestionsArray
    end.

(** The questions of a returned quiz. *)
Definition questionsOf (quiz : JValue) : list JValue :=
  match Json.getProp quiz (js "questions") with
  | Ok (Some (JArr qs)) => qs
  | _ => []
  end.

(** Builders for objects of the parse tree. *)
Definition obj (fields : list (string * JValue)) : JValue :=
  JObj (list_to_map (prod_map js id <$> fields)).
Definition strs (l : list string) : JValue := JArr ((λ s, JStr (js s)) <$> l).


(** ** JavaScript numbers

    [settings.duration] is [parseInt] of the text of the Duration field,
    or the initial 10: an integer-valued double, an infinity, or [NaN]
    (an emptied field). The countdown multiplies it by 60 and takes 1 off
    at every tick, in double arithmetic: the results are integers again,
    each rounded to the nearest double, with ties to the even
    significand. The sign of zero plays no part in what follows and is
    left out; a duration that the browser's storage gives back as [null]
    acts as 0 in [settings.duration * 60]. *)

Module Number.

Inductive t : Type :=
| NaN
| Infinity (negative : bool)
| Int (z : Z).

(** The double nearest to an integer. Up to 2^53 every integer is a
    double; above, the doubles are the multiples of 2^e with 53
    significant bits, and 2^1024 is out of range. *)
Definition round (z : Z) : t :=
  let a := Z.abs z in
  if a <? 2 ^ 53 then Int z
  else
    let e := Z.log2 a - 52 in
    let q := a / 2 ^ e in
    let r := a mod 2 ^ e in
    let q' := if 2 * r <? 2 ^ e then q
              else if 2 ^ e <? 2 * r then q + 1
              else if Z.even q then q else q + 1 in
    let m := q' * 2 ^ e in
    if 2 ^ 1024 <=? m then Infinity (z <? 0) else Int (Z.sgn z * m).

(** [a * b]. *)
Definition mul (a b : t) : t :=
  match a, b with
  | NaN, _ | _, NaN => NaN
  | Infinity s, Infinity s' => Infinity (xorb s s')
  | Infinity s, Int z | Int z, Infinity s =>
      if z =? 0 then NaN else Infinity (xorb s (z <? 0))
  | Int x, Int y => round (x * y)
  end.

(** [a - b]. *)
Definition sub (a b : t) : t :=
  match a, b with
  | NaN, _ | _, NaN => NaN
  | Infinity s, Infinity s' => if eqb s s' then NaN else Infinity s
  | Infinity s, Int _ => Infinity s
  | Int _, Infinity s => Infinity (negb s)
  | Int x, Int y => round (x - y)
  end.

(** [a <= b] and [a < b]: false when either side is [NaN]. *)
Definition leb (a b : t) : bool :=
  match a, b with
  | NaN, _ | _, NaN => false
  | Infinity true, _ => true
  | _, Infinity false => true
  | Infinity false, _ => false
  | _, Infinity true => false
  | Int x, Int y => x <=? y
  end.


(** [a % b] for an integer divisor: the remainder has the sign of the
    dividend and is exact. *)
Definition rem (a b : t) : t :=
  match a, b with
  | Int x, Int y => if y =? 0 then NaN else Int (Z.rem x y)
  | Int x, Infinity _ => Int x
  | _, _ => NaN
  end.

(** The integers that are doubles. *)
Definition representable (z : Z) : Prop :=
  Z.abs z < 2 ^ 53 ∨
  (Z.abs z < 2 ^ 1024 ∧ Z.abs z mod 2 ^ (Z.log2 (Z.abs z) - 52) = 0).

(** The number a double of the kernel stands for, when it is one of the
    above: an integer, an infinity or [NaN]. *)
Definition ofFloat (x : float) : option t :=
  match Prim2SF x with
  | S754_nan => Some NaN
  | S754_infinity s => Some (Infinity s)
  | S754_zero _ => Some (Int 0)
  | S754_finite s m e =>
      let v := if (0 <=? e) then Some (Z.pos m * 2 ^ e)
               else if (Z.pos m mod 2 ^ (- e) =? 0) then Some (Z.pos m / 2 ^ (- e))
               else None in
      (λ v, Int (if s then - v else v)) <$> v
  end.

End Number.

(** ** The types of src/types.ts *)

Inductive QuestionType : Type := MultipleChoice | FillInTheBlank | Mixed.
Inductive Difficulty : Type := Easy | Medium | Hard.

Module QuizSettings.
Record t : Type := {
  topic : jsstring;
  documentContent : option jsstring;
  numQuestions : Number.t;
  questionType : QuestionType;
  difficulty : Difficulty;
  duration : Number.t;
  language : jsstring
}.
End QuizSettings.

(** A question of the quiz [QuizScreen] is given. [generateQuiz] returns
    the parsed reply by a cast, and checks that [correctAnswer] is a
    string only for a multiple_choice question (it must be one of the
    options): for a fill_in_the_blank question it is whatever the reply
    holds, [undefined] ([None]) when the property is missing. *)
Module Question.
Inductive kind : Type := multiple_choice | fill_in_the_blank.
Record t : Type := {
  questionText : jsstring;
  questionType : kind;
  options : list jsstring;
  correctAnswer : Json.maybe;
  explanation : jsstring
}.
End Question.

Module Quiz.
Record t : Type := {
  topic : jsstring;
  questions : list Question.t
}.
End Quiz.

(** An element of the [userAnswers] array. The type declares
    [string | null]; a write past the end of a JavaScript array leaves
    holes, which the spread [[...userAnswers]] reads as [undefined]. *)
Inductive Slot : Type :=
| Hole
| Undefined
| Null
| Str (s : jsstring).

(** [answer === value] for an element of [userAnswers], read by its index
    (a hole reads as [undefined]), and a value of the quiz. *)
Definition strictEq (answer : Slot) (value : Json.maybe) : bool :=
  match answer, value with
  | Str a, Some (JStr c) => bool_decide (a = c)
  | Null, Some JNull => true
  | (Undefined | Hole), None => true
  | _, _ => false
  end.

Module QuizResult.
Record t : Type := {
  id : jsstring;
  quiz : Quiz.t;
  settings : QuizSettings.t;
  userAnswers : list Slot;
  score : Z;
  timeTaken : Number.t;
  folderId : jsstring;
  tags : list jsstring
}.
End QuizResult.

(** ** The content provider's reply to one [generateContent] call *)

Inductive ProviderReply : Type :=
| ProviderFails
    (* the API key is missing, or the call rejects *)
| ProviderText (text : jsstring) (parsed : option JValue).
    (* [response.text], and [JSON.parse] of it ([None]: a SyntaxError) *)

(** What [translateText] is asked to translate and what it returns. *)
Inductive TranslateInput : Type :=
| Batch (texts : list jsstring)
| Single (text : jsstring).

Inductive Translation : Type :=
| Translations (items : list JValue)
| Translated (text : jsstring).

(** Every throw inside [translateText] is caught and rethrown as
    [Error("Failed to translate text.")]. *)
Inductive TranslateError : Type := FailedToTranslate.

Definition translateText (input : TranslateInput) (reply : ProviderReply)
  : Result TranslateError Translation :=
  match reply with
  | ProviderFails => Throw FailedToTranslate
  | ProviderText text parsed =>
      match input with
      | Batch texts =>
          match parsed with
          | None => Throw FailedToTranslate
          | Some result =>
              match Json.getProp result (js "translations") with
              | Throw _ => Throw FailedToTranslate
              | Ok translations =>
                  match translations with
                  | Some (JArr items) =>
                      if Json.truthy translations && Json.isArray translations
                         && bool_decide (length items = length texts)
                      then Ok (Translations items)
                      else Throw FailedToTranslate
                  | _ => Throw FailedToTranslate
                  end
              end
          end
      | Single _ => Ok (Translated text)
      end
  end.

(** ** The [QuizScreen] component *)

Module QuizScreen.

(** The props. [onComplete] is the list of results a transition emits. *)
Record Props : Type := {
  quiz : Quiz.t;
  settings : QuizSettings.t
}.

Record TranslatedContent : Type := {
  question : JValue;
  options : option (list JValue)
}.

(** The [useState] cells, and whether the interval of [timerInterval] is
    live. The download progress cell belongs to the PDF export and is
    left out. *)
Record State : Type := {
  currentQuestionIndex : Z;
  userAnswers : list Slot;
  timeLeft : Number.t;
  isPaused : bool;
  isTranslating : bool;
  showTranslateModal : bool;
  translatedContent : option TranslatedContent;
  timerRunning : bool
}.

Definition setCurrentQuestionIndex (i : Z) (s : State) : State :=
  {| currentQuestionIndex := i; userAnswers := userAnswers s;
     timeLeft := timeLeft s; isPaused := isPaused s;
     isTranslating := isTranslating s;
     showTranslateModal := showTranslateModal s;
     translatedContent := translatedContent s;
     timerRunning := timerRunning s |}.

Definition setUserAnswers (a : list Slot) (s : State) : State :=
  {| currentQuestionIndex := currentQuestionIndex s; userAnswers := a;
     timeLeft := timeLeft s; isPaused := isPaused s;
     isTranslating := isTranslating s;
     showTranslateModal := showTranslateModal s;
     translatedContent := translatedContent s;
     timerRunning := timerRunning s |}.

Definition setTimeLeft (t : Number.t) (s : State) : State :=
  {| currentQuestionIndex := currentQuestionIndex s;
     userAnswers := userAnswers s;
     timeLeft := t; isPaused := isPaused s;
     isTranslating := isTranslating s;
     showTranslateModal := showTranslateModal s;
     translatedContent := translatedContent s;
     timerRunning := timerRunning s |}.

Definition setIsPaused (b : bool) (s : State) : State :=
  {| currentQuestionIndex := currentQuestionIndex s;
     userAnswers := userAnswers s;
     timeLeft := timeLeft s; isPaused := b;
     isTranslating := isTranslating s;
     showTranslateModal := showTranslateModal s;
     translatedContent := translatedContent s;
     timerRunning := timerRunning s |}.

Definition setIsTranslating (b : bool) (s : State) : State :=
  {| currentQuestionIndex := currentQuestionIndex s;
     userAnswers := userAnswers s;
     timeLeft := timeLeft s; isPaused := isPaused s;
     isTranslating := b;
     showTranslateModal := showTranslateModal s;
     translatedContent := translatedContent s;
     timerRunning := timerRunning s |}.

Definition setShowTranslateModal (b : bool) (s : State) : State :=
  {| currentQuestionIndex := currentQuestionIndex s;
     userAnswers := userAnswers s;
     timeLeft := timeLeft s; isPaused := isPaused s;
     isTranslating := isTranslating s;
     showTranslateModal := b;
     translatedContent := translatedContent s;
     timerRunning := timerRunning s |}.

Definition setTranslatedContent (c : option TranslatedContent) (s : State) : State :=
  {| currentQuestionIndex := currentQuestionIndex s;
     userAnswers := userAnswers s;
     timeLeft := timeLeft s; isPaused := isPaused s;
     isTranslating := isTranslating s;
     showTranslateModal := showTranslateModal s;
     translatedContent := c;
     timerRunning := timerRunning s |}.

(** [setInterval] ([true]) and [clearInterval] ([false]) on the
    interval of [timerInterval]. *)
Definition setTimerRunning (b : bool) (s : State) : State :=
  {| currentQuestionIndex := currentQuestionIndex s;
     userAnswers := userAnswers s;
     timeLeft := timeLeft s; isPaused := isPaused s;
     isTranslating := isTranslating s;
     showTranslateModal := showTranslateModal s;
     translatedContent := translatedContent s;
     timerRunning := b |}.

Definition questions (p : Props) : list Question.t := Quiz.questions (quiz p).

(** [quiz.questions[i]], [undefined] ([None]) out of range. *)
Definition questionAt (p : Props) (i : Z) : option Question.t :=
  if decide (0 <= i) then questions p !! Z.to_nat i else None.

(** The state of the first render. *)
Definition initial (p : Props) : State :=
  {| currentQuestionIndex := 0;
     userAnswers := replicate (length (questions p)) Null;
     timeLeft := Number.mul (QuizSettings.duration (settings p)) (Number.Int 60);
     isPaused := false;
     isTranslating := false;
     showTranslateModal := false;
     translatedContent := None;
     timerRunning := false |}.

(** [answer === quiz.questions[index].correctAnswer]. *)
Definition answerMatches (answer : Slot) (q : Question.t) : bool :=
  strictEq answer (Question.correctAnswer q).

(** [userAnswers.reduce(...)] from [index] on: [reduce] skips the holes,
    and the callback reads [quiz.questions[index].correctAnswer], which
    throws when there is no such question. *)
Fixpoint scoreFrom (qs : list Question.t) (index : nat) (answers : list Slot)
    (acc : Z) : Result TypeError Z :=
  match answers with
  | [] => Ok acc
  | Hole :: rest => scoreFrom qs (S index) rest acc
  | answer :: rest =>
      match qs !! index with
      | None => Throw ReadOfUndefined
      | Some q =>
          scoreFrom qs (S index) rest
            (if answerMatches answer q then acc + 1 else acc)
      end
  end.

(** [handleSubmit]: clears the interval, computes the score and the time
    taken, and hands the result to [onComplete]. *)
Definition handleSubmit (p : Props) (s : State)
  : Result TypeError (State * QuizResult.t) :=
  let s := setTimerRunning false s in
  score ← scoreFrom (questions p) 0 (userAnswers s) 0;
  let timeTaken :=
    Number.sub (Number.mul (QuizSettings.duration (settings p)) (Number.Int 60))
               (timeLeft s) in
  Ok (s, {| QuizResult.id := js "";
            QuizResult.quiz := quiz p;
            QuizResult.settings := settings p;
            QuizResult.userAnswers := userAnswers s;
            QuizResult.score := score;
            QuizResult.timeTaken := timeTaken;
            QuizResult.folderId := js "uncategorized";
            QuizResult.tags := [] |}).

(** The timer effect, run after a render in which [isPaused],
    [timeLeft] or [handleSubmit] changed ([handleSubmit] changes with
    [userAnswers], [timeLeft] and the props). The cleanup of the
    previous run clears its interval first. *)
Definition timerEffect (p : Props) (s : State)
  : Result TypeError (State * list QuizResult.t) :=
  let s := setTimerRunning false s in
  if isPaused s then Ok (s, [])
  else if Number.leb (timeLeft s) (Number.Int 0) then
    '(s, result) ← handleSubmit p s; Ok (s, [result])
  else Ok (setTimerRunning true s, []).

(** [[...userAnswers]]: a dense copy. *)
Definition spread (answers : list Slot) : list Slot :=
  (λ a, match a with Hole => Undefined | _ => a end) <$> answers.

(** [newAnswers[i] = answer]: in range it replaces the element, past the
    end it extends the array and leaves holes; a negative [i] names a
    property that is not an element. *)
Definition assign (answers : list Slot) (i : Z) (answer : Slot) : list Slot :=
  if decide (i < 0) then answers
  else if decide (Z.to_nat i < length answers)%nat
       then <[Z.to_nat i := answer]> answers
       else answers ++ replicate (Z.to_nat i - length answers) Hole ++ [answer].

Definition handleAnswerChange (answer : jsstring) (s : State) : State :=
  let newAnswers := spread (userAnswers s) in
  let newAnswers := assign newAnswers (currentQuestionIndex s) (Str answer) in
  setUserAnswers newAnswers s.

Definition changeQuestion (p : Props) (newIndex : Z) (s : State) : State :=
  if decide (newIndex >= 0 ∧ newIndex < Z.of_nat (length (questions p)))
  then setTranslatedContent None (setCurrentQuestionIndex newIndex s)
  else s.

Definition goToNext (p : Props) (s : State) : State :=
  changeQuestion p (currentQuestionIndex s + 1) s.
Definition goToPrev (p : Props) (s : State) : State :=
  changeQuestion p (currentQuestionIndex s - 1) s.
Definition skipQuestion (p : Props) (s : State) : State := goToNext p s.

(** [handleTranslate], up to its [await]: the three setters, and the
    [currentQuestion] the rest of the call works on. *)
Definition translateStart (s : State) : State :=
  setTranslatedContent None (setShowTranslateModal false (setIsTranslating true s)).

(** [[currentQuestion.questionText, ...currentQuestion.options]]. *)
Definition textsToTranslate (q : Question.t) : list jsstring :=
  Question.questionText q :: Question.options q.

(** The argument [handleTranslate] passes to [translateText]. *)
Definition translateInput (q : Question.t) : TranslateInput :=
  match Question.questionType q with
  | Question.multiple_choice => Batch (textsToTranslate q)
  | Question.fill_in_the_blank => Single (Question.questionText q)
  end.

(** What the [try] block of [handleTranslate] sets as translated
    content, or [None] when it throws: on a failed [translateText], on a
    length mismatch, or on a [currentQuestion] that is [undefined]. *)
Definition translateOutcome (currentQuestion : option Question.t)
    (reply : ProviderReply) : option TranslatedContent :=
  match currentQuestion with
  | None => None
  | Some q =>
      match Question.questionType q, translateText (translateInput q) reply with
      | Question.multiple_choice, Ok (Translations translations) =>
          if bool_decide (length translations = length (textsToTranslate q))
          then
            match translations with
            | translatedQuestion :: translatedOptions =>
                Some {| question := translatedQuestion;
                        options := Some translatedOptions |}
            | [] => None
            end
          else None
      | Question.fill_in_the_blank, Ok (Translated translation) =>
          Some {| question := JStr translation; options := None |}
      | _, _ => None
      end
  end.

(** [handleTranslate], from the [await] on: the content is set, or the
    [catch] raises the alert ([true]); [finally] resets the flag. *)
Definition translateSettle (currentQuestion : option Question.t)
    (reply : ProviderReply) (s : State) : State * bool :=
  match translateOutcome currentQuestion reply with
  | Some content =>
      (setIsTranslating false (setTranslatedContent (Some content) s), false)
  | None => (setIsTranslating false s, true)
  end.

(** A call of [handleTranslate] that nothing interleaves with. *)
Definition handleTranslate (p : Props) (reply : ProviderReply) (s : State)
  : State * bool :=
  translateSettle (questionAt p (currentQuestionIndex s)) reply (translateStart s).

(** *** Events and transitions *)

Inductive Event : Type :=
| Tick                       (* the interval callback *)
| TogglePause                (* the pause button of the header *)
| Resume                     (* the button of the pause overlay *)
| Answer (answer : jsstring) (* an option button, or the text input *)
| Next
| Prev
| Skip
| Submit                     (* the submit button *)
| ParentRender               (* a render of App: a new [onComplete] *)
| OpenTranslate
| CloseTranslate
| TranslateStart
| TranslateSettle (currentQuestion : option Question.t) (reply : ProviderReply).

(** One event: the new state and the results handed to [onComplete], or
    the TypeError that escapes. The interval callback exists only while
    the interval is live. *)
Definition step (p : Props) (e : Event) (s : State)
  : Result TypeError (State * list QuizResult.t) :=
  match e with
  | Tick =>
      if timerRunning s
      then timerEffect p (setTimeLeft (Number.sub (timeLeft s) (Number.Int 1)) s)
      else Ok (s, [])
  | TogglePause => timerEffect p (setIsPaused (negb (isPaused s)) s)
  | Resume =>
      if isPaused s then timerEffect p (setIsPaused false s) else Ok (s, [])
  | Answer answer => timerEffect p (handleAnswerChange answer s)
  | Next => Ok (goToNext p s, [])
  | Prev => Ok (goToPrev p s, [])
  | Skip => Ok (skipQuestion p s, [])
  | Submit => '(s, result) ← handleSubmit p s; Ok (s, [result])
  | ParentRender => timerEffect p s
  | OpenTranslate => Ok (setShowTranslateModal true s, [])
  | CloseTranslate => Ok (setShowTranslateModal false s, [])
  | TranslateStart => Ok (translateStart s, [])
  | TranslateSettle currentQuestion reply =>
      Ok ((translateSettle currentQuestion reply s).1, [])
  end.

(** A sequence of events, with the results emitted on the way. *)
Fixpoint run (p : Props) (events : list Event) (s : State)
  : Result TypeError (State * list QuizResult.t) :=
  match events with
  | [] => Ok (s, [])
  | e :: rest =>
      '(s, emitted) ← step p e s;
      '(s, later) ← run p rest s;
      Ok (s, (emitted ++ later)%list)
  end.

(** The first render and the first run of the effect. The render reads
    [currentQuestion.questionText], which throws when the quiz has no
    question. *)
Definition mount (p : Props) : Result TypeError (State * list QuizResult.t) :=
  match questionAt p (currentQuestionIndex (initial p)) with
  | None => Throw ReadOfUndefined
  | Some _ => timerEffect p (initial p)
  end.

(** A session: the mount, then the events. *)
Definition session (p : Props) (events : list Event)
  : Result TypeError (State * list QuizResult.t) :=
  '(s, emitted) ← mount p;
  '(s, later) ← run p events s;
  Ok (s, (emitted ++ later)%list).

(** The states a session passes through. *)
Inductive reachable (p : Props) : State → Prop :=
| reachable_mount s emitted :
    mount p = Ok (s, emitted) → reachable p s
| reachable_step s e s' emitted :
    reachable p s → step p e s = Ok (s', emitted) → reachable p s'.

End QuizScreen.

(** ** [handleQuizComplete] of src/App.tsx *)

Module App.

(** The update of [quizResults]: the result, with [id] in place of its
    id, in front of the stored ones. [id] is [Date.now().toString()], the
    reading of the clock as text, an input here. *)
Definition handleQuizComplete (id : jsstring) (result : QuizResult.t)
    (quizResults : list QuizResult.t) : list QuizResult.t :=
  let newResult :=
    {| QuizResult.id := id;
       QuizResult.quiz := QuizResult.quiz result;
       QuizResult.settings := QuizResult.settings result;
       QuizResult.userAnswers := QuizResult.userAnswers result;
       QuizResult.score := QuizResult.score result;
       QuizResult.timeTaken := QuizResult.timeTaken result;
       QuizResult.folderId := js "uncategorized";
       QuizResult.tags := [] |} in
  newResult :: quizResults.

End App.

(** ** The properties, as the specification words them *)

(** The error of an outcome, if any. *)
Definition errorOf {E A} (r : Result E A) : option E :=
  match r with Ok _ => None | Throw e => Some e end.

(** A non-empty trimmed string. *)
Definition goodOption (opt : JValue) : Prop :=
  ∃ s, opt = JStr s ∧ JsString.trim s ≠ [].

(** Exactly 4 options, each a non-empty trimmed string. *)
Definition wellFormedOptions (options : Json.maybe) : Prop :=
  ∃ items, options = Some (JArr items) ∧ length items = 4%nat ∧
           Forall goodOption items.

(** The correct answer is a string equal, code unit by code unit, to one
    of the options. *)
Definition answerAmong (options correctAnswer : Json.maybe) : Prop :=
  ∃ items s, options = Some (JArr items) ∧ correctAnswer = Some (JStr s) ∧
             JStr s ∈ items.

(** Two questions that differ at most in their [questionText]. *)
Definition sameButQuestionText (q q' : JValue) : Prop :=
  match q, q' with
  | JObj fields, JObj fields' =>
      ∀ k, k ≠ js "questionText" → fields !! k = fields' !! k
  | _, _ => q = q'
  end.

(** Two questions that differ at most in the [options] of a
    fill_in_the_blank question. *)
Definition sameButBlankOptions (q q' : JValue) : Prop :=
  q' = q ∨
  ∃ fields fields', q = JObj fields ∧ q' = JObj fields' ∧
      fields !! js "questionType" = Some (JStr (js "fill_in_the_blank")) ∧
      ∀ k, k ≠ js "options" → fields !! k = fields' !! k.

(** Sample candidates. *)
Definition emptyQuiz : JValue :=
  obj [("topic", JStr (js "Photosynthesis")); ("questions", JArr [])].

Definition blankQuestion (options : JValue) : JValue :=
  obj [("questionType", JStr (js "fill_in_the_blank"));
       ("options", options);
       ("correctAnswer", JStr (js "chlorophyll"));
       ("explanation", JStr (js ""))].

Definition choiceQuestion (questionText : string) (options : list string)
    (correctAnswer : string) : JValue :=
  obj [("questionText", JStr (js questionText));
       ("questionType", JStr (js "multiple_choice"));
       ("options", strs options);
       ("correctAnswer", JStr (js correctAnswer));
       ("explanation", JStr (js ""))].

Definition quizOf (questions : list JValue) : JValue :=
  obj [("topic", JStr (js "Photosynthesis")); ("questions", JArr questions)].

(** The blank question, with a [questionText]. *)
Definition titledQuestion : JValue :=
  Json.setProp (blankQuestion (JArr [])) (js "questionText")
    (JStr (js "Name the green pigment")).

(** A fill_in_the_blank question with no [questionText] and a
    multiple_choice question whose [questionText] is blank. *)
Definition untitledQuiz : JValue :=
  quizOf [blankQuestion (JArr []);
          choiceQuestion "   " ["light"; "water"; "air"; "soil"] "light"].

(** A multiple_choice question that repeats an option. *)
Definition duplicateOptionsQuiz : JValue :=
  quizOf [choiceQuestion "What do leaves absorb?"
            ["light"; "light"; "air"; "soil"] "light"].

(** *** The session *)

(** The entry at index [i] is exactly the correct answer of question
    [i]: the same string, or [null] for [null], or [undefined] for a
    missing one; an index without an entry matches nothing. *)
Definition matchAt (qs : list Question.t) (answers : list Slot) (i : nat) : bool :=
  match answers !! i, qs !! i with
  | Some (Str a), Some q =>
      match Question.correctAnswer q with
      | Some (JStr c) => bool_decide (a = c)
      | _ => false
      end
  | Some Null, Some q =>
      match Question.correctAnswer q with Some JNull => true | _ => false end
  | Some Undefined, Some q =>
      match Question.correctAnswer q with None => true | _ => false end
  | _, _ => false
  end.

(** The number of indices of [answers] at which the entry matches. *)
Definition exactMatches (qs : list Question.t) (answers : list Slot) : Z :=
  Z.of_nat (length (filter (λ i, matchAt qs answers i = true)
                           (seq 0 (length answers)))).




(** [settings.duration * 60], the seconds of the session. *)
Definition seconds (p : QuizScreen.Props) : Number.t :=
  Number.mul (QuizSettings.duration (QuizScreen.settings p)) (Number.Int 60).

(** The result the specification describes for a submission in state
    [s]. *)
Definition resultFor (p : QuizScreen.Props) (s : QuizScreen.State) : QuizResult.t :=
  {| QuizResult.id := js "";
     QuizResult.quiz := QuizScreen.quiz p;
     QuizResult.settings := QuizScreen.settings p;
     QuizResult.userAnswers := QuizScreen.userAnswers s;
     QuizResult.score :=
       exactMatches (QuizScreen.questions p) (QuizScreen.userAnswers s);
     QuizResult.timeTaken := Number.sub (seconds p) (QuizScreen.timeLeft s);
     QuizResult.folderId := js "uncategorized";
     QuizResult.tags := [] |}.

(** What the state of a session keeps true, before the timer effect has
    run ([renderable]) and after ([invariant]). *)
Definition renderable (p : QuizScreen.Props) (s : QuizScreen.State) : Prop :=
  length (QuizScreen.userAnswers s) = length (QuizScreen.questions p) ∧
  (0 <= QuizScreen.currentQuestionIndex s
        < Z.of_nat (length (QuizScreen.questions p))).

Definition invariant (p : QuizScreen.Props) (s : QuizScreen.State) : Prop :=
  renderable p s ∧
  (QuizScreen.timerRunning s = true →
   QuizScreen.isPaused s = false ∧
   Number.leb (QuizScreen.timeLeft s) (Number.Int 0) = false).

(** Where the time left of a session can be. When the seconds of the
    session are an integer that is not negative, the time left is a
    double between 0 and it; negative seconds stay as they are, for the
    countdown never starts; and so does a [NaN] or an infinity, which a
    tick leaves as it is. *)
Definition onTheClock (p : QuizScreen.Props) (s : QuizScreen.State) : Prop :=
  match seconds p with
  | Number.Int total =>
      ∃ t, QuizScreen.timeLeft s = Number.Int t ∧
           ((total < 0 ∧ t = total) ∨
            (0 <= t <= total ∧ Number.representable t))
  | other => QuizScreen.timeLeft s = other
  end.

(** [submit] of the specification: [handleSubmit] with [onComplete] bound
    to [handleQuizComplete], with [id] read from the clock, on a session
    and the stored results. *)
Definition submit (id : jsstring) (p : QuizScreen.Props)
    (st : QuizScreen.State * list QuizResult.t)
  : Result TypeError (QuizScreen.State * list QuizResult.t) :=
  '(s, result) ← QuizScreen.handleSubmit p st.1;
  Ok (s, App.handleQuizComplete id result st.2).

(** A sample session: two questions, one minute. *)
Definition pigmentQuestion : Question.t :=
  {| Question.questionText := js "Name the green pigment";
     Question.questionType := Question.fill_in_the_blank;
     Question.options := [];
     Question.correctAnswer := Some (JStr (js "chlorophyll"));
     Question.explanation := js "" |}.

Definition leavesQuestion : Question.t :=
  {| Question.questionText := js "What do leaves absorb?";
     Question.questionType := Question.multiple_choice;
     Question.options := [js "light"; js "water"; js "air"; js "soil"];
     Question.correctAnswer := Some (JStr (js "light"));
     Question.explanation := js "" |}.

(** A session on [questions] that lasts [duration] minutes. *)
Definition propsOf (questions : list Question.t) (duration : Number.t)
  : QuizScreen.Props :=
  {| QuizScreen.quiz :=
       {| Quiz.topic := js "Photosynthesis"; Quiz.questions := questions |};
     QuizScreen.settings :=
       {| QuizSettings.topic := js "Photosynthesis";
          QuizSettings.documentContent := None;
          QuizSettings.numQuestions := Number.Int 2;
          QuizSettings.questionType := Mixed;
          QuizSettings.difficulty := Easy;
          QuizSettings.duration := duration;
          QuizSettings.language := js "" |} |}.

Definition sampleProps : QuizScreen.Props :=
  propsOf [leavesQuestion; pigmentQuestion] (Number.Int 1).

(** The sample session with the Duration field emptied, and with a
    duration of 10^15 minutes. *)
Definition emptiedDurationProps : QuizScreen.Props :=
  propsOf [leavesQuestion; pigmentQuestion] Number.NaN.

Definition longProps : QuizScreen.Props :=
  propsOf [leavesQuestion; pigmentQuestion] (Number.Int (10 ^ 15)).




(** The sample session once mounted: 60 seconds left, the timer live. *)
Definition sampleState : QuizScreen.State :=
  QuizScreen.setTimerRunning true (QuizScreen.initial sampleProps).

(** The sample session, paused. *)
Definition pausedState : QuizScreen.State :=
  QuizScreen.setIsPaused true (QuizScreen.initial sampleProps).

(** The sample session on its last question, where the submit button is
    shown. *)
Definition lastQuestionState : QuizScreen.State :=
  QuizScreen.setCurrentQuestionIndex 1 sampleState.

(** A reply of four translations. *)
Definition fourTranslations : ProviderReply :=
  ProviderText (js "")
    (Some (obj [("translations", strs ["a"; "b"; "c"; "d"])])).

(** ** More of the source: strings, mime types, tags, folders, retakes *)

Module JsStringOps.

(** [s.split(sep)] for a separator of one code unit: the pieces between
    the separators, never an empty array. *)
Fixpoint split (sep : N) (s : jsstring) : list jsstring :=
  match s with
  | [] => [[]]
  | c :: rest =>
      if bool_decide (c = sep) then [] :: split sep rest
      else match split sep rest with
           | piece :: pieces => (c :: piece) :: pieces
           | [] => [[c]]
           end
  end.

(** [pieces.join(sep)]. *)
Fixpoint join (sep : jsstring) (pieces : list jsstring) : jsstring :=
  match pieces with
  | [] => []
  | [piece] => piece
  | piece :: rest => (piece ++ sep ++ join sep rest)%list
  end.

(** [s.padStart(targetLength, pad)] for a pad of one code unit. *)
Definition padStart (targetLength : nat) (pad : N) (s : jsstring) : jsstring :=
  (replicate (targetLength - length s) pad ++ s)%list.

(** [toLowerCase] on the code units of Basic Latin, where it maps A-Z to
    a-z and nothing else. *)
Definition lowerAscii (s : jsstring) : jsstring :=
  (λ c, if (0x41 <=? c)%N && (c <=? 0x5A)%N then (c + 0x20)%N else c) <$> s.

Definition isAscii (s : jsstring) : Prop := Forall (λ c, (c < 128)%N) s.

(** [s.startsWith(search)] and [s.includes(search)]: [search] occurs at
    the start of [s], or somewhere in it. *)
Fixpoint startsWith (s search : jsstring) : bool :=
  match search, s with
  | [], _ => true
  | c :: search', d :: s' => bool_decide (c = d) && startsWith s' search'
  | _ :: _, [] => false
  end.

Fixpoint includes (s search : jsstring) : bool :=
  startsWith s search
  || match s with
     | [] => false
     | _ :: s' => includes s' search
     end.

End JsStringOps.

(** *** [getMimeType] and [fileToBase64]

    [String.prototype.toLowerCase] follows the Unicode case tables, which
    are not part of the repository: it is a parameter here. *)

Section MimeType.

Variable toLowerCase : jsstring → jsstring.

(** [fileName.split('.').pop()?.toLowerCase()], then the [switch]. *)
Definition getMimeType (fileName : jsstring) : jsstring :=
  match toLowerCase <$> last (JsStringOps.split 0x2E fileName) with
  | Some extension =>
      if bool_decide (extension = js "pdf") then js "application/pdf"
      else if bool_decide (extension = js "docx") then
        js "application/vnd.openxmlformats-officedocument.wordprocessingml.document"
      else if bool_decide (extension = js "txt") then js "text/plain"
      else js "application/octet-stream"
  | None => js "application/octet-stream"
  end.

End MimeType.

(** [reader.result.split(',')[1]], what [fileToBase64] resolves with for a
    data URL; [None] is [undefined]. *)
Definition fileToBase64 (dataUrl : jsstring) : option jsstring :=
  JsStringOps.split 0x2C dataUrl !! 1%nat.

(** The [contents] of the request of [generateQuiz]: the prompt alone, or
    the prompt and the uploaded document, whose file name is the topic.
    The text of the prompt is the same in both. *)
Inductive Contents : Type :=
| PromptOnly (promptContent : jsstring)
| PromptAndFile (promptContent : jsstring) (data mimeType : jsstring).

Definition requestContents (toLowerCase : jsstring → jsstring)
    (promptContent : jsstring) (settings : QuizSettings.t) : Contents :=
  match QuizSettings.documentContent settings with
  | Some data =>
      if bool_decide (data = []) then PromptOnly promptContent
      else PromptAndFile promptContent data
             (getMimeType toLowerCase (QuizSettings.topic settings))
  | None => PromptOnly promptContent
  end.

(** The mime type [getMimeType] gives an extension already in lower
    case. *)
Definition mimeTypeOf (extension : jsstring) : jsstring :=
  if bool_decide (extension = js "pdf") then js "application/pdf"
  else if bool_decide (extension = js "docx") then
    js "application/vnd.openxmlformats-officedocument.wordprocessingml.document"
  else if bool_decide (extension = js "txt") then js "text/plain"
  else js "application/octet-stream".

(** *** The clock of [QuizScreen] *)

(** The decimal digits of an integer, after a minus sign when it is
    negative. *)
Definition decimal (z : Z) : jsstring := js (NilZero.string_of_int (Z.to_int z)).

(** [Number.prototype.toString] and the rounded quotient under
    [Math.floor(seconds / 60)] are not part of the repository: they are
    parameters here. *)

Section Clock.

Variable toString : Number.t → jsstring.
Variable floorOfSixtieth : Number.t → Number.t.

(** [formatTime]: [Math.floor(seconds / 60)] and [seconds % 60], each
    printed and padded to two places. *)
Definition formatTime (seconds : Number.t) : jsstring :=
  let mins := floorOfSixtieth seconds in
  let secs := Number.rem seconds (Number.Int 60) in
  (JsStringOps.padStart 2 0x30 (toString mins) ++ js ":" ++
   JsStringOps.padStart 2 0x30 (toString secs))%list.

End Clock.

(** What the two do on the integers up to 2^53: such an integer, being
    below 10^21, is printed in decimal digits, and its quotient by 60 is
    rounded to a double whose floor is the floor of the quotient. *)
Definition printsDecimal (toString : Number.t → jsstring) : Prop :=
  ∀ z, Z.abs z <= 2 ^ 53 → toString (Number.Int z) = decimal z.

Definition floorsSixtieth (floorOfSixtieth : Number.t → Number.t) : Prop :=
  ∀ z, Z.abs z <= 2 ^ 53 → floorOfSixtieth (Number.Int z) = Number.Int (z / 60).

(** An instance of the two. *)
Definition sampleToString (x : Number.t) : jsstring :=
  match x with
  | Number.NaN => js "NaN"
  | Number.Infinity negative => js (if negative then "-Infinity" else "Infinity")
  | Number.Int z => decimal z
  end.

Definition sampleFloorOfSixtieth (x : Number.t) : Number.t :=
  match x with
  | Number.Int z => Number.Int (z / 60)
  | other => other
  end.

(** The number a string of decimal digits stands for. *)
Definition digitsValue (s : jsstring) : Z :=
  fold_left (λ acc c, 10 * acc + (Z.of_N c - 48)) s 0.

(** A decimal digit, as a code unit. *)
Definition isDigit (c : N) : Prop := (48 <= c <= 57)%N.

(** *** [ResultsScreen] *)

Module ResultsScreen.

(** The initial text of the tags input, [result.tags.join(', ')]. *)
Definition initialTags (result : QuizResult.t) : jsstring :=
  JsStringOps.join (js ", ") (QuizResult.tags result).

(** [tags.split(',').map(t => t.trim()).filter(Boolean)]. *)
Definition parseTags (tags : jsstring) : list jsstring :=
  filter (λ t, t ≠ []) (JsString.trim <$> JsStringOps.split 0x2C tags).

Definition withTags (tags : list jsstring) (r : QuizResult.t) : QuizResult.t :=
  {| QuizResult.id := QuizResult.id r;
     QuizResult.quiz := QuizResult.quiz r;
     QuizResult.settings := QuizResult.settings r;
     QuizResult.userAnswers := QuizResult.userAnswers r;
     QuizResult.score := QuizResult.score r;
     QuizResult.timeTaken := QuizResult.timeTaken r;
     QuizResult.folderId := QuizResult.folderId r;
     QuizResult.tags := tags |}.

(** [handleTagSave], as the update of [quizResults]; [result] is the
    result on screen and [tags] the text of the input. *)
Definition handleTagSave (result : QuizResult.t) (tags : jsstring)
    (prev : list QuizResult.t) : list QuizResult.t :=
  (λ r, if decide (QuizResult.id r = QuizResult.id result)
        then withTags (parseTags tags) r else r) <$> prev.

(** [userAnswer === question.correctAnswer] in the review of question
    [index]; an index past the answers reads [undefined]. *)
Definition isCorrect (result : QuizResult.t) (index : nat) (question : Question.t)
  : bool :=
  let userAnswer := default Undefined (QuizResult.userAnswers result !! index) in
  strictEq userAnswer (Question.correctAnswer question).

(** The marks of the review, one per question of [result.quiz]. *)
Definition reviewMarks (result : QuizResult.t) : list bool :=
  imap (isCorrect result) (Quiz.questions (QuizResult.quiz result)).

End ResultsScreen.

(** *** [HistoryScreen] *)

Module Folder.
Record t : Type := {
  id : jsstring;
  name : jsstring
}.
End Folder.

Module HistoryScreen.

(** [{ id: 'uncategorized', name: 'Uncategorized' }]. *)
Definition uncategorized : Folder.t :=
  {| Folder.id := js "uncategorized"; Folder.name := js "Uncategorized" |}.

(** The first stage of [filteredResults]: the results of the active
    folder, in stored order. *)
Definition inFolder (activeFolderId : jsstring) (results : list QuizResult.t)
  : list QuizResult.t :=
  filter (λ r, QuizResult.folderId r = activeFolderId) results.

Inductive SortOption : Type :=
| Newest
| Oldest
| ScoreHighToLow
| ScoreLowToHigh.

(** [toLowerCase] follows the Unicode case tables, and the order that
    [Array.prototype.sort] gives depends on the engine when the
    comparator is not consistent ([parseInt] of an id may be [NaN]):
    both are parameters. *)

Section FilteredResults.

Variable toLowerCase : jsstring → jsstring.
Variable sort : SortOption → list QuizResult.t → list QuizResult.t.

(** The test of the second stage: the search term occurs in the topic or
    in a tag, case aside. *)
Definition matchesSearch (searchTerm : jsstring) (r : QuizResult.t) : bool :=
  JsStringOps.includes (toLowerCase (Quiz.topic (QuizResult.quiz r)))
                       (toLowerCase searchTerm)
  || existsb (λ tag, JsStringOps.includes (toLowerCase tag)
                                          (toLowerCase searchTerm))
             (QuizResult.tags r).

(** The two filters of [filteredResults], before the sort. *)
Definition searched (activeFolderId searchTerm : jsstring)
    (results : list QuizResult.t) : list QuizResult.t :=
  filter (λ r, matchesSearch searchTerm r = true) (inFolder activeFolderId results).

(** [filteredResults], what the screen lists. *)
Definition filteredResults (results : list QuizResult.t) (searchTerm : jsstring)
    (sortOption : SortOption) (activeFolderId : jsstring) : list QuizResult.t :=
  sort sortOption (searched activeFolderId searchTerm results).

End FilteredResults.

(** The folders the move menu offers. *)
Definition moveTargets (activeFolderId : jsstring) (folders : list Folder.t)
  : list Folder.t :=
  filter (λ f, Folder.id f ≠ activeFolderId) folders.

(** [handleCreateFolder], as the update of [folders]: nothing when the
    trimmed name is empty. [id] is [Date.now().toString()], the reading
    of the clock as text. *)
Definition handleCreateFolder (id : jsstring) (newFolderName : jsstring)
    (prev : list Folder.t) : list Folder.t :=
  if bool_decide (JsString.trim newFolderName = []) then prev
  else (prev ++ [{| Folder.id := id;
                    Folder.name := JsString.trim newFolderName |}])%list.

(** [handleDeleteResult]; [confirmed] is the answer to [window.confirm]. *)
Definition handleDeleteResult (confirmed : bool) (id : jsstring)
    (prev : list QuizResult.t) : list QuizResult.t :=
  if confirmed then filter (λ r, QuizResult.id r ≠ id) prev else prev.

(** [handleDeleteAll], on the results and the folders. *)
Definition handleDeleteAll (confirmed : bool)
    (store : list QuizResult.t * list Folder.t)
  : list QuizResult.t * list Folder.t :=
  if confirmed then ([], [uncategorized]) else store.

Definition withFolderId (folderId : jsstring) (r : QuizResult.t) : QuizResult.t :=
  {| QuizResult.id := QuizResult.id r;
     QuizResult.quiz := QuizResult.quiz r;
     QuizResult.settings := QuizResult.settings r;
     QuizResult.userAnswers := QuizResult.userAnswers r;
     QuizResult.score := QuizResult.score r;
     QuizResult.timeTaken := QuizResult.timeTaken r;
     QuizResult.folderId := folderId;
     QuizResult.tags := QuizResult.tags r |}.

(** [handleMoveResult], as the update of [results]. *)
Definition handleMoveResult (resultId targetFolderId : jsstring)
    (prev : list QuizResult.t) : list QuizResult.t :=
  (λ r, if decide (QuizResult.id r = resultId)
        then withFolderId targetFolderId r else r) <$> prev.

End HistoryScreen.

(** *** The store of [App]: results and folders, and what changes them *)

Module Store.

Definition t : Type := (list QuizResult.t * list Folder.t)%type.

Inductive Op : Type :=
| Complete (id : jsstring) (result : QuizResult.t)
| TagSave (result : QuizResult.t) (tags : jsstring)
| CreateFolder (id : jsstring) (newFolderName : jsstring)
| DeleteResult (confirmed : bool) (id : jsstring)
| DeleteAll (confirmed : bool)
| MoveResult (resultId : jsstring) (activeFolderId : jsstring) (target : nat).
    (* the entry [target] of the move menu of the active folder *)

Definition apply (op : Op) (store : t) : t :=
  match op with
  | Complete id result => (App.handleQuizComplete id result store.1, store.2)
  | TagSave result tags =>
      (ResultsScreen.handleTagSave result tags store.1, store.2)
  | CreateFolder id newFolderName =>
      (store.1, HistoryScreen.handleCreateFolder id newFolderName store.2)
  | DeleteResult confirmed id =>
      (HistoryScreen.handleDeleteResult confirmed id store.1, store.2)
  | DeleteAll confirmed => HistoryScreen.handleDeleteAll confirmed store
  | MoveResult resultId activeFolderId target =>
      match HistoryScreen.moveTargets activeFolderId store.2 !! target with
      | Some f =>
          (HistoryScreen.handleMoveResult resultId (Folder.id f) store.1, store.2)
      | None => store
      end
  end.

(** The store of a first visit. *)
Definition fresh : t := ([], [HistoryScreen.uncategorized]).

(** The uncategorized folder exists, and every result is in a folder that
    exists. *)
Definition consistent (store : t) : Prop :=
  HistoryScreen.uncategorized ∈ store.2 ∧
  ∀ r, r ∈ store.1 → ∃ f, f ∈ store.2 ∧ Folder.id f = QuizResult.folderId r.

End Store.

(** *** Retaking a quiz *)

Module Retake.

(** The cells of [App] that [handleRetakeQuiz] and [renderScreen] use. *)
Record State : Type := {
  quizSettings : option QuizSettings.t;
  currentQuiz : option Quiz.t
}.

(** [handleRetakeQuiz]. *)
Definition handleRetakeQuiz (result : QuizResult.t) (st : State) : State :=
  {| quizSettings := Some (QuizResult.settings result);
     currentQuiz := Some (QuizResult.quiz result) |}.

(** The props [renderScreen] gives [QuizScreen] on the quiz screen, when
    both cells are set. *)
Definition quizScreenProps (st : State) : option QuizScreen.Props :=
  match currentQuiz st, quizSettings st with
  | Some quiz, Some settings =>
      Some {| QuizScreen.quiz := quiz; QuizScreen.settings := settings |}
  | _, _ => None
  end.

(** [quizResults[0]], the result the results screen shows. *)
Definition latestResult (quizResults : list QuizResult.t) : option QuizResult.t :=
  quizResults !! 0%nat.

End Retake.

(** *** What the events of a session leave alone *)

Definition framed (e : QuizScreen.Event) (s s' : QuizScreen.State) : Prop :=
  ((∀ answer, e ≠ QuizScreen.Answer answer) →
   QuizScreen.userAnswers s' = QuizScreen.userAnswers s) ∧
  (e ≠ QuizScreen.Tick → QuizScreen.timeLeft s' = QuizScreen.timeLeft s) ∧
  (e = QuizScreen.Tick →
   QuizScreen.timeLeft s' = QuizScreen.timeLeft s ∨
   (Number.leb (QuizScreen.timeLeft s) (Number.Int 0) = false ∧
    QuizScreen.timeLeft s'
    = Number.sub (QuizScreen.timeLeft s) (Number.Int 1))) ∧
  (e ≠ QuizScreen.Next → e ≠ QuizScreen.Prev → e ≠ QuizScreen.Skip →
   QuizScreen.currentQuestionIndex s' = QuizScreen.currentQuestionIndex s) ∧
  (e ≠ QuizScreen.TogglePause → e ≠ QuizScreen.Resume →
   QuizScreen.isPaused s' = QuizScreen.isPaused s).

(** An entry of [userAnswers] as src/types.ts declares it,
    [string | null]. *)
Definition declaredAnswer (a : Slot) : Prop := a = Null ∨ ∃ t, a = Str t.

(** One point or none. *)
Definition point (b : bool) : Z := if b then 1 else 0.

(** A tag as [handleTagSave] stores it: not empty, with no white space at
    either end, and with no comma. *)
Definition cleanTag (t : jsstring) : Prop :=
  t ≠ [] ∧ JsString.trim t = t ∧ (0x2C)%N ∉ t.

(** ** Proofs: strings *)

Example trim_sample : JsString.trim (js "  soil and water 	") = js "soil and water".
Proof. vm_compute. reflexivity. Qed.

Example trim_blank_sample : JsString.trim (js " 	 ") = [].
Proof. vm_compute. reflexivity. Qed.

Lemma trimStart_nil s :
  JsString.trimStart s = [] ↔ Forall (λ c, JsString.isWhiteSpace c = true) s.
Proof.
  induction s as [| c s IH]; simpl.
  - split; [constructor | reflexivity].
  - destruct (JsString.isWhiteSpace c) eqn:Hc.
    + rewrite IH, Forall_cons. tauto.
    + split; [discriminate |]. intros H. apply Forall_cons in H as [H _].
      congruence.
Qed.

Lemma trimStart_head s c rest :
  JsString.trimStart s = c :: rest → JsString.isWhiteSpace c = false.
Proof.
  induction s as [| d s IH]; simpl; [discriminate |].
  destruct (JsString.isWhiteSpace d) eqn:Hd; [exact IH |].
  intros [= <- _]. exact Hd.
Qed.

(** A string is empty after trimming exactly when it holds white space
    only. *)
Lemma trim_nil s :
  JsString.trim s = [] ↔ Forall (λ c, JsString.isWhiteSpace c = true) s.
Proof.
  rewrite <- trimStart_nil. unfold JsString.trim, JsString.trimEnd. split.
  - intros H. apply (f_equal reverse) in H. rewrite reverse_involutive in H.
    change (reverse []) with (@nil N) in H. apply trimStart_nil in H.
    rewrite Forall_reverse in H.
    destruct (JsString.trimStart s) as [| c rest] eqn:Hs; [reflexivity |].
    apply trimStart_head in Hs. apply Forall_cons in H as [H _]. congruence.
  - intros ->. reflexivity.
Qed.

Ltac js_neq :=
  let H := fresh in
  intros H; vm_compute in H; first [discriminate H | congruence].

(** ** Proofs: the validator *)

Lemma badOption_false opt : Json.badOption opt = false ↔ goodOption opt.
Proof.
  unfold goodOption. destruct opt as [| b | x | s | items | fields]; simpl;
    try (split; [discriminate | intros (s' & E & _); discriminate E]).
  rewrite bool_decide_eq_false. split.
  - intros H. exists s. split; [reflexivity | exact H].
  - intros (s' & E & H). injection E as ->. exact H.
Qed.

Lemma existsb_badOption_false items :
  existsb Json.badOption items = false ↔ Forall goodOption items.
Proof.
  induction items as [| opt items IH]; simpl.
  - split; [constructor | reflexivity].
  - rewrite orb_false_iff, IH, badOption_false, Forall_cons. reflexivity.
Qed.

Lemma optionsInvalid_false options :
  optionsInvalid options = false ↔ wellFormedOptions options.
Proof.
  unfold wellFormedOptions, optionsInvalid.
  destruct options as [[| b | x | s | items | fields] |];
    try (split; [ rewrite !orb_false_iff; intros []; discriminate
                | intros (items' & E & _); discriminate E ]).
  simpl. rewrite orb_false_iff, negb_false_iff, bool_decide_eq_true,
    existsb_badOption_false.
  split.
  - intros [Hlen Hall]. exists items. auto.
  - intros (items' & E & Hlen & Hall). injection E as ->. auto.
Qed.

Lemma optionsInvalid_true options :
  optionsInvalid options = true ↔ ¬ wellFormedOptions options.
Proof.
  rewrite <- optionsInvalid_false. destruct (optionsInvalid options); split;
    congruence.
Qed.

Lemma sameValueZero_str s (x : Json.maybe) :
  Json.sameValueZero (Some (JStr s)) x = true ↔ x = Some (JStr s).
Proof.
  destruct x as [[| b | y | t | items | fields] |]; simpl;
    try (split; discriminate).
  rewrite bool_decide_eq_true. split; [intros -> | intros [= ->]]; reflexivity.
Qed.

Lemma includes_strings items (x : Json.maybe) :
  Forall goodOption items →
  Json.includes items x = true ↔ ∃ s, x = Some (JStr s) ∧ JStr s ∈ items.
Proof.
  unfold Json.includes.
  induction 1 as [| opt items (t & -> & _) _ IH]; cbn [existsb].
  - split; [discriminate | intros (s & _ & Hin); inversion Hin].
  - rewrite orb_true_iff, IH, sameValueZero_str. split.
    + intros [-> | (s & -> & Hin)].
      * exists t. split; [reflexivity | left].
      * exists s. split; [reflexivity | right; exact Hin].
    + intros (s & -> & Hin). apply elem_of_cons in Hin as [[= ->] | Hin].
      * left. reflexivity.
      * right. exists s. auto.
Qed.

Lemma answerInOptions_true options correctAnswer :
  wellFormedOptions options →
  answerInOptions options correctAnswer = true ↔ answerAmong options correctAnswer.
Proof.
  intros (items & -> & _ & Hall). unfold answerAmong. simpl.
  rewrite (includes_strings _ _ Hall). split.
  - intros (s & -> & Hin). exists items, s. auto.
  - intros (items' & s & [= <-] & -> & Hin). exists s. auto.
Qed.

Lemma validateQuestion_choice fields :
  fields !! js "questionType" = Some (JStr (js "multiple_choice")) →
  validateQuestion (JObj fields) =
    if optionsInvalid (fields !! js "options") then Throw InvalidOptions
    else if negb (answerInOptions (fields !! js "options")
                                  (fields !! js "correctAnswer"))
         then Throw AnswerNotInOptions
         else Ok (JObj fields).
Proof.
  intros Htype. unfold validateQuestion. simpl. rewrite Htype. simpl.
  reflexivity.
Qed.

Lemma validateQuestion_blank fields :
  fields !! js "questionType" = Some (JStr (js "fill_in_the_blank")) →
  validateQuestion (JObj fields) = Ok (JObj (<[js "options" := JArr []]> fields)).
Proof.
  intros Htype. unfold validateQuestion. simpl. rewrite Htype. simpl.
  reflexivity.
Qed.

(** The outcome for a question depends on three of its properties only. *)
Lemma validateQuestion_reads fields fields' :
  fields !! js "questionType" = fields' !! js "questionType" →
  fields !! js "options" = fields' !! js "options" →
  fields !! js "correctAnswer" = fields' !! js "correctAnswer" →
  errorOf (validateQuestion (JObj fields)) = errorOf (validateQuestion (JObj fields')).
Proof.
  intros Ht Ho Hc. unfold validateQuestion. simpl. rewrite <- Ht, <- Ho, <- Hc.
  destruct (Json.strictEqStr _ (js "multiple_choice")); simpl.
  - destruct (optionsInvalid _); simpl; [reflexivity |].
    destruct (negb _); reflexivity.
  - destruct (Json.strictEqStr _ _); reflexivity.
Qed.

(** An accepted question is an object, left as it is when multiple_choice
    and with its options emptied when fill_in_the_blank. *)
Lemma validateQuestion_Ok_inv q q' :
  validateQuestion q = Ok q' →
  ∃ fields, q = JObj fields ∧
    ((fields !! js "questionType" = Some (JStr (js "multiple_choice")) ∧ q' = q) ∨
     (fields !! js "questionType" = Some (JStr (js "fill_in_the_blank")) ∧
      q' = JObj (<[js "options" := JArr []]> fields))).
Proof.
  unfold validateQuestion.
  destruct q as [| b | x | s | items | fields]; simpl; try discriminate.
  destruct (fields !! js "questionType") as [[| b | x | s | items | fs] |] eqn:Ht;
    simpl; try discriminate.
  intros H. exists fields. split; [reflexivity |].
  destruct (bool_decide (s = js "multiple_choice")) eqn:Hmc.
  - apply bool_decide_eq_true in Hmc as ->. left. split; [exact Ht |].
    revert H. simpl. destruct (optionsInvalid _); simpl; [discriminate |].
    destruct (negb _); [discriminate | congruence].
  - destruct (bool_decide (s = js "fill_in_the_blank")) eqn:Hfb; [| discriminate].
    apply bool_decide_eq_true in Hfb as ->. right. split; [exact Ht | congruence].
Qed.

Lemma validateQuestions_Forall2 qs qs' :
  validateQuestions qs = Ok qs' →
  Forall2 (λ q q', validateQuestion q = Ok q') qs qs'.
Proof.
  revert qs'. induction qs as [| q qs IH]; simpl; intros qs'.
  - intros [= <-]. constructor.
  - destruct (validateQuestion q) as [q1 |] eqn:Hq; simpl; [| discriminate].
    destruct (validateQuestions qs) as [rest |]; simpl; [| discriminate].
    intros [= <-]. constructor; auto.
Qed.

(** The loop throws the error of the first question that fails. *)
Lemma validateQuestions_first_error before q after e :
  Forall (λ q, isOk (validateQuestion q) = true) before →
  validateQuestion q = Throw e →
  validateQuestions (before ++ q :: after) = Throw e.
Proof.
  intros Hbefore Hq. induction Hbefore as [| b before Hb _ IH]; simpl.
  - rewrite Hq. reflexivity.
  - destruct (validateQuestion b); [| discriminate]. simpl. rewrite IH.
    reflexivity.
Qed.

Lemma validateQuestions_rejects qs q :
  q ∈ qs → isOk (validateQuestion q) = false →
  isOk (validateQuestions qs) = false.
Proof.
  induction 1 as [q qs | q b qs _ IH]; simpl; intros Hq.
  - destruct (validateQuestion q); [discriminate | reflexivity].
  - destruct (validateQuestion b); [| reflexivity]. simpl.
    specialize (IH Hq). destruct (validateQuestions qs); [discriminate | reflexivity].
Qed.

Lemma validateQuestions_related (R : JValue → JValue → Prop) qs qs' :
  (∀ q q', R q q' → errorOf (validateQuestion q) = errorOf (validateQuestion q')) →
  Forall2 R qs qs' →
  errorOf (validateQuestions qs) = errorOf (validateQuestions qs').
Proof.
  intros HR. induction 1 as [| q q' qs qs' Hq _ IH]; simpl; [reflexivity |].
  apply HR in Hq.
  destruct (validateQuestion q), (validateQuestion q'); simpl in *;
    try congruence.
  destruct (validateQuestions qs), (validateQuestions qs'); simpl in *;
    congruence.
Qed.

Lemma validateQuiz_questions fields qs :
  fields !! js "questions" = Some (JArr qs) →
  validateQuiz (JObj fields) =
    qs' ← validateQuestions qs; Ok (JObj (<[js "questions" := JArr qs']> fields)).
Proof. intros H. unfold validateQuiz. simpl. rewrite H. reflexivity. Qed.

Lemma validateQuiz_Ok_inv quizData quiz :
  validateQuiz quizData = Ok quiz →
  ∃ fields qs qs', quizData = JObj fields ∧
    fields !! js "questions" = Some (JArr qs) ∧
    validateQuestions qs = Ok qs' ∧
    quiz = JObj (<[js "questions" := JArr qs']> fields).
Proof.
  unfold validateQuiz.
  destruct quizData as [| b | x | s | items | fields]; simpl; try discriminate.
  destruct (fields !! js "questions") as [[| b | x | s | qs | fs] |] eqn:Hqs;
    simpl; try discriminate.
  - destruct b; discriminate.
  - destruct (negb _); discriminate.
  - destruct (negb _); discriminate.
  - destruct (validateQuestions qs) as [qs' |] eqn:Hv; simpl; [| discriminate].
    intros [= <-]. exists fields, qs, qs'. auto.
Qed.

Lemma validateQuiz_error fields qs :
  fields !! js "questions" = Some (JArr qs) →
  errorOf (validateQuiz (JObj fields)) = errorOf (validateQuestions qs).
Proof.
  intros H. rewrite (validateQuiz_questions _ _ H).
  destruct (validateQuestions qs); reflexivity.
Qed.

(** *** The questions array itself *)

(** C1: the code accepts a candidate whose questions field is an empty
    array and returns it as it is, a quiz with no question and no error,
    although the quiz screen cannot show such a quiz: its first render
    reads the text of the first question, which throws, whatever the
    settings are. *)
Theorem empty_quiz_accepted :
  Json.getProp emptyQuiz (js "questions") = Ok (Some (JArr [])) ∧
  validateQuiz emptyQuiz = Ok emptyQuiz ∧ questionsOf emptyQuiz = [] ∧
  (∀ fields,
     validateQuiz (JObj (<[js "questions" := JArr []]> fields))
     = Ok (JObj (<[js "questions" := JArr []]> fields))) ∧
  ∀ settings events,
    QuizScreen.session
      {| QuizScreen.quiz :=
           {| Quiz.topic := js "Photosynthesis"; Quiz.questions := [] |};
         QuizScreen.settings := settings |} events
    = Throw ReadOfUndefined.
Proof.
  split; [vm_compute; reflexivity |]. split; [vm_compute; reflexivity |].
  split; [vm_compute; reflexivity |]. split.
  - intros fields.
    rewrite (validateQuiz_questions _ [])
      by (rewrite lookup_insert_eq; reflexivity).
    simpl. rewrite insert_insert_eq. reflexivity.
  - intros settings events. reflexivity.
Qed.

(** *** questionText *)

(** C2, refuted as stated: a quiz is accepted although one question has
    no [questionText] and another has one that is empty after trimming. *)
Lemma untitled_quiz_accepted :
  ∃ quiz q1 q2,
    validateQuiz untitledQuiz = Ok quiz ∧ questionsOf quiz = [q1; q2] ∧
    Json.getProp q1 (js "questionText") = Ok None ∧
    (∃ s, Json.getProp q2 (js "questionText") = Ok (Some (JStr s)) ∧
          JsString.trim s = []).
Proof.
  exists untitledQuiz, (blankQuestion (JArr [])),
    (choiceQuestion "   " ["light"; "water"; "air"; "soil"] "light").
  repeat split; try (vm_compute; reflexivity).
  exists (js "   "). split; vm_compute; reflexivity.
Qed.

Lemma sameButQuestionText_error q q' :
  sameButQuestionText q q' →
  errorOf (validateQuestion q) = errorOf (validateQuestion q').
Proof.
  unfold sameButQuestionText.
  destruct q as [| b | x | s | items | fields];
    destruct q' as [| b' | x' | s' | items' | fields']; try congruence.
  intros H. apply validateQuestion_reads; apply H; js_neq.
Qed.

(** C2, amended: validation does not look at [questionText]. Two
    candidates that differ only in the [questionText] of their questions
    (present, missing, empty or blank) are both accepted, or both rejected
    with the same error. *)
Theorem questionText_not_validated fields qs qs' :
  fields !! js "questions" = Some (JArr qs) →
  Forall2 sameButQuestionText qs qs' →
  errorOf (validateQuiz (JObj (<[js "questions" := JArr qs']> fields))) =
  errorOf (validateQuiz (JObj fields)).
Proof.
  intros Hqs Hrel.
  rewrite (validateQuiz_error fields qs Hqs).
  rewrite (validateQuiz_error _ qs') by apply lookup_insert_eq.
  symmetry. apply (validateQuestions_related sameButQuestionText); [| exact Hrel].
  apply sameButQuestionText_error.
Qed.

Lemma titledQuestion_same :
  sameButQuestionText titledQuestion (blankQuestion (JArr [])).
Proof.
  unfold titledQuestion, blankQuestion, obj, Json.setProp, sameButQuestionText.
  intros k Hk. apply lookup_insert_ne. congruence.
Qed.

Lemma questionText_not_validated_witness :
  errorOf (validateQuiz (quizOf [blankQuestion (JArr [])])) =
  errorOf (validateQuiz (quizOf [titledQuestion])).
Proof.
  refine (questionText_not_validated
            (list_to_map [(js "topic", JStr (js "Photosynthesis"));
                          (js "questions", JArr [titledQuestion])])
            [titledQuestion] [blankQuestion (JArr [])] _ _).
  - vm_compute. reflexivity.
  - constructor; [exact titledQuestion_same | constructor].
Defined.

(** *** multiple_choice questions *)

(** C4: the validator accepts a multiple_choice question whose four
    options are not pairwise distinct. *)
Lemma duplicate_options_accepted :
  validateQuiz duplicateOptionsQuiz = Ok duplicateOptionsQuiz ∧
  ∃ q options, questionsOf duplicateOptionsQuiz = [q] ∧
    Json.getProp q (js "options") = Ok (Some (JArr options)) ∧
    ¬ NoDup options.
Proof.
  split; [vm_compute; reflexivity |].
  exists (choiceQuestion "What do leaves absorb?"
            ["light"; "light"; "air"; "soil"] "light"),
         [JStr (js "light"); JStr (js "light"); JStr (js "air"); JStr (js "soil")].
  repeat split; try (vm_compute; reflexivity).
  intros Hnd. apply NoDup_cons in Hnd as [Hnotin _]. apply Hnotin. left.
Qed.

(** C5: a multiple_choice question is rejected with InvalidOptions when
    its options are not exactly 4 non-empty trimmed strings, with
    AnswerNotInOptions when they are and the correct answer is not one of
    them, and passes otherwise; a quiz fails with the error of its first
    failing question, and no quiz that holds a failing question is
    accepted. *)
Theorem multiple_choice_checks fields :
  fields !! js "questionType" = Some (JStr (js "multiple_choice")) →
  let options := fields !! js "options" in
  let correctAnswer := fields !! js "correctAnswer" in
  (¬ wellFormedOptions options →
     validateQuestion (JObj fields) = Throw InvalidOptions) ∧
  (wellFormedOptions options → ¬ answerAmong options correctAnswer →
     validateQuestion (JObj fields) = Throw AnswerNotInOptions) ∧
  (wellFormedOptions options → answerAmong options correctAnswer →
     validateQuestion (JObj fields) = Ok (JObj fields)) ∧
  (∀ quizFields before after e,
     quizFields !! js "questions" = Some (JArr (before ++ JObj fields :: after)) →
     Forall (λ q, isOk (validateQuestion q) = true) before →
     validateQuestion (JObj fields) = Throw e →
     validateQuiz (JObj quizFields) = Throw e) ∧
  (∀ quizFields qs,
     quizFields !! js "questions" = Some (JArr qs) → JObj fields ∈ qs →
     ¬ (wellFormedOptions options ∧ answerAmong options correctAnswer) →
     isOk (validateQuiz (JObj quizFields)) = false).
Proof.
  intros Htype options correctAnswer.
  pose proof (validateQuestion_choice fields Htype) as Hq.
  fold options correctAnswer in Hq.
  assert (Hbad : ¬ wellFormedOptions options →
                 validateQuestion (JObj fields) = Throw InvalidOptions).
  { intros Hwf. apply optionsInvalid_true in Hwf. rewrite Hq, Hwf. reflexivity. }
  assert (Hmiss : wellFormedOptions options → ¬ answerAmong options correctAnswer →
                  validateQuestion (JObj fields) = Throw AnswerNotInOptions).
  { intros Hwf Hans. rewrite Hq.
    rewrite (proj2 (optionsInvalid_false options) Hwf).
    rewrite <- (answerInOptions_true _ _ Hwf) in Hans.
    destruct (answerInOptions options correctAnswer); [congruence | reflexivity]. }
  split; [exact Hbad |]. split; [exact Hmiss |]. split; [| split].
  - intros Hwf Hans. rewrite Hq.
    rewrite (proj2 (optionsInvalid_false options) Hwf).
    rewrite (proj2 (answerInOptions_true _ _ Hwf) Hans). reflexivity.
  - intros quizFields before after e Hqs Hbefore He.
    rewrite (validateQuiz_questions _ _ Hqs).
    rewrite (validateQuestions_first_error _ _ _ _ Hbefore He). reflexivity.
  - intros quizFields qs Hqs Hin Hnot.
    rewrite (validateQuiz_questions _ _ Hqs).
    assert (Hrej : isOk (validateQuestion (JObj fields)) = false).
    { destruct (optionsInvalid options) eqn:Hinv.
      - apply optionsInvalid_true in Hinv. rewrite (Hbad Hinv). reflexivity.
      - apply optionsInvalid_false in Hinv.
        rewrite (Hmiss Hinv); [reflexivity |]. intros Hans. apply Hnot. auto. }
    pose proof (validateQuestions_rejects _ _ Hin Hrej) as Hall.
    destruct (validateQuestions qs); [discriminate | reflexivity].
Qed.

Lemma multiple_choice_checks_witness :
  validateQuestion (choiceQuestion "What do leaves absorb?"
                      ["light"; "air"; "soil"] "light") = Throw InvalidOptions ∧
  validateQuestion (choiceQuestion "What do leaves absorb?"
                      ["light"; "water"; "air"; "soil"] "Light")
    = Throw AnswerNotInOptions.
Proof.
  split.
  - refine (proj1 (multiple_choice_checks _ _) _).
    + vm_compute. reflexivity.
    + apply optionsInvalid_true. vm_compute. reflexivity.
  - refine (proj1 (proj2 (multiple_choice_checks _ _)) _ _).
    + vm_compute. reflexivity.
    + apply optionsInvalid_false. vm_compute. reflexivity.
    + intros Hans. apply answerInOptions_true in Hans.
      * vm_compute in Hans. discriminate Hans.
      * apply optionsInvalid_false. vm_compute. reflexivity.
Defined.

(** *** fill_in_the_blank questions *)

Lemma sameButBlankOptions_error q q' :
  sameButBlankOptions q q' →
  errorOf (validateQuestion q) = errorOf (validateQuestion q').
Proof.
  intros [-> | (fields & fields' & -> & -> & Htype & Hsame)]; [reflexivity |].
  assert (Htype' : fields' !! js "questionType"
                   = Some (JStr (js "fill_in_the_blank"))).
  { rewrite <- Hsame by js_neq. exact Htype. }
  rewrite (validateQuestion_blank _ Htype), (validateQuestion_blank _ Htype').
  reflexivity.
Qed.

(** C6: in every accepted quiz a fill_in_the_blank question has an empty
    options array; the validator empties whatever the candidate supplied,
    and the options supplied to such questions never change whether the
    quiz is accepted. *)
Theorem blank_options_normalized :
  (∀ quizData quiz q,
     validateQuiz quizData = Ok quiz → q ∈ questionsOf quiz →
     Json.getProp q (js "questionType")
       = Ok (Some (JStr (js "fill_in_the_blank"))) →
     Json.getProp q (js "options") = Ok (Some (JArr []))) ∧
  (∀ fields supplied,
     fields !! js "questionType" = Some (JStr (js "fill_in_the_blank")) →
     validateQuestion (JObj (<[js "options" := supplied]> fields))
       = Ok (JObj (<[js "options" := JArr []]> fields))) ∧
  (∀ fields qs qs',
     fields !! js "questions" = Some (JArr qs) →
     Forall2 sameButBlankOptions qs qs' →
     errorOf (validateQuiz (JObj (<[js "questions" := JArr qs']> fields))) =
     errorOf (validateQuiz (JObj fields))).
Proof.
  split; [| split].
  - intros quizData quiz q Hv Hin Htype.
    apply validateQuiz_Ok_inv in Hv as (fields & qs & qs' & -> & _ & Hqs & ->).
    unfold questionsOf in Hin. simpl in Hin. rewrite lookup_insert_eq in Hin.
    apply validateQuestions_Forall2 in Hqs.
    apply list_elem_of_lookup in Hin as [i Hi].
    destruct (Forall2_lookup_r _ _ _ _ _ Hqs Hi) as (q0 & _ & Hq0).
    apply validateQuestion_Ok_inv in Hq0
      as (qfields & -> & [[Hmc ->] | [_ ->]]).
    + simpl in Htype. rewrite Hmc in Htype. injection Htype as Htype.
      vm_compute in Htype. discriminate Htype.
    + simpl. rewrite lookup_insert_eq. reflexivity.
  - intros fields supplied Htype.
    rewrite validateQuestion_blank.
    + rewrite insert_insert_eq. reflexivity.
    + rewrite lookup_insert_ne by js_neq. exact Htype.
  - intros fields qs qs' Hqs Hrel.
    rewrite (validateQuiz_error fields qs Hqs).
    rewrite (validateQuiz_error _ qs') by apply lookup_insert_eq.
    symmetry. apply (validateQuestions_related sameButBlankOptions); [| exact Hrel].
    apply sameButBlankOptions_error.
Qed.

Lemma blank_options_normalized_witness :
  Json.getProp (blankQuestion (JArr [])) (js "options") = Ok (Some (JArr [])) ∧
  validateQuestion (blankQuestion (strs ["chlorophyll"; "carotene"]))
    = Ok (blankQuestion (JArr [])).
Proof.
  split.
  - refine (proj1 blank_options_normalized
              (quizOf [blankQuestion (strs ["chlorophyll"; "carotene"])])
              (quizOf [blankQuestion (JArr [])]) _ _ _ _).
    + vm_compute. reflexivity.
    + vm_compute. left.
    + vm_compute. reflexivity.
  - pose proof (proj1 (proj2 blank_options_normalized)
                  (list_to_map [(js "questionType", JStr (js "fill_in_the_blank"));
                                (js "correctAnswer", JStr (js "chlorophyll"));
                                (js "explanation", JStr (js ""))])
                  (strs ["chlorophyll"; "carotene"])) as H.
    vm_compute in H. vm_compute. apply H. reflexivity.
Defined.

(** ** Proofs: numbers *)

(** The model of the doubles against the doubles of the kernel. *)
Example round_sample_doubles :
  Forall (λ z, Number.ofFloat (PrimFloat.of_uint63 (Uint63.of_Z z))
               = Some (Number.round z))
    [0; 59; 60; 2 ^ 53 - 1; 2 ^ 53; 2 ^ 53 + 1; 2 ^ 53 + 2; 2 ^ 53 + 3;
     2 ^ 54 + 2; 2 ^ 54 + 6; 6 * 10 ^ 16 - 1; 6 * 10 ^ 16; 2 ^ 62 + 2 ^ 9;
     2 ^ 62 + 2 ^ 9 + 1; 2 ^ 63 - 1].
Proof. repeat constructor. Qed.

Example sub_sample_doubles :
  Number.ofFloat (60000000000000000 - 1)%float
  = Some (Number.sub (Number.Int (6 * 10 ^ 16)) (Number.Int 1)) ∧
  Number.sub (Number.Int (6 * 10 ^ 16)) (Number.Int 1) = Number.Int (6 * 10 ^ 16) ∧
  Number.ofFloat (1000000000000000 * 60)%float
  = Some (Number.mul (Number.Int (10 ^ 15)) (Number.Int 60)) ∧
  Number.ofFloat (nan * 60)%float = Some (Number.mul Number.NaN (Number.Int 60)) ∧
  Number.ofFloat (nan - 1)%float = Some (Number.sub Number.NaN (Number.Int 1)) ∧
  Number.ofFloat (infinity - infinity)%float
  = Some (Number.sub (Number.Infinity false) (Number.Infinity false)) ∧
  PrimFloat.leb nan 0 = Number.leb Number.NaN (Number.Int 0).
Proof. vm_compute. repeat split. Qed.

Lemma round_safe z : Z.abs z < 2 ^ 53 → Number.round z = Number.Int z.
Proof.
  intros H. unfold Number.round. apply Z.ltb_lt in H. rewrite H. reflexivity.
Qed.

(** The shape of a rounded integer of 2^53 or more. *)
Lemma round_large a :
  2 ^ 53 <= a →
  let e := Z.log2 a - 52 in
  ∃ q r q',
    a = q * 2 ^ e + r ∧ 0 <= r < 2 ^ e ∧ 1 <= e ∧
    2 ^ 52 <= q < 2 ^ 53 ∧ (q' = q ∨ (q' = q + 1 ∧ 0 < r)) ∧
    (r = 0 → q' = q) ∧
    Number.round a = (if 2 ^ 1024 <=? q' * 2 ^ e then Number.Infinity false
                      else Number.Int (q' * 2 ^ e)).
Proof.
  intros Ha e.
  assert (Hpos : 0 < a) by (pose proof (Z.pow_pos_nonneg 2 53); lia).
  assert (He : 1 <= e).
  { unfold e. pose proof (Z.log2_le_mono _ _ Ha) as H.
    rewrite Z.log2_pow2 in H by lia. lia. }
  assert (HP : 0 < 2 ^ e) by (apply Z.pow_pos_nonneg; lia).
  destruct (Z.log2_spec a Hpos) as [Hlo Hhi].
  replace (Z.log2 a) with (52 + e) in Hlo by (unfold e; lia).
  replace (Z.succ (Z.log2 a)) with (53 + e) in Hhi by (unfold e; lia).
  rewrite Z.pow_add_r in Hlo, Hhi by lia.
  pose proof (Z.div_mod a (2 ^ e) ltac:(lia)) as Hdm.
  pose proof (Z.mod_pos_bound a (2 ^ e) HP) as Hr.
  set (q := a / 2 ^ e) in *. set (r := a mod 2 ^ e) in *.
  assert (Hq : 2 ^ 52 <= q < 2 ^ 53).
  { split.
    - apply Z.div_le_lower_bound; [exact HP | lia].
    - apply Z.div_lt_upper_bound; [exact HP | lia]. }
  exists q, r,
    (if 2 * r <? 2 ^ e then q
     else if 2 ^ e <? 2 * r then q + 1
     else if Z.even q then q else q + 1).
  split; [lia |]. split; [exact Hr |]. split; [exact He |]. split; [exact Hq |].
  split; [| split].
  - destruct (2 * r <? 2 ^ e) eqn:H1; [left; reflexivity |].
    apply Z.ltb_ge in H1.
    destruct (2 ^ e <? 2 * r); [right; split; [reflexivity | lia] |].
    destruct (Z.even q); [left; reflexivity | right; split; [reflexivity | lia]].
  - intros Hr0. destruct (2 * r <? 2 ^ e) eqn:H1; [reflexivity |].
    apply Z.ltb_ge in H1. lia.
  - unfold Number.round. rewrite (Z.abs_eq a) by lia.
    destruct (a <? 2 ^ 53) eqn:Hlt; [apply Z.ltb_lt in Hlt; lia |].
    fold e. fold q. fold r.
    replace (a <? 0) with false by (symmetry; apply Z.ltb_ge; lia).
    rewrite (Z.sgn_pos a) by lia. rewrite Z.mul_1_l. reflexivity.
Qed.

Lemma representable_large q e :
  2 ^ 52 <= q <= 2 ^ 53 → 1 <= e → q * 2 ^ e < 2 ^ 1024 →
  Number.representable (q * 2 ^ e).
Proof.
  intros Hq He Hlt. right.
  assert (HP : 0 < 2 ^ e) by (apply Z.pow_pos_nonneg; lia).
  rewrite Z.abs_eq by nia. split; [exact Hlt |].
  destruct (decide (q = 2 ^ 53)) as [-> | Hne].
  - rewrite <- Z.pow_add_r by lia. rewrite Z.log2_pow2 by lia.
    replace (53 + e - 52) with (e + 1) by lia.
    replace (53 + e) with (52 + (e + 1)) by lia.
    rewrite Z.pow_add_r by lia. apply Z.mod_mul. apply Z.pow_nonzero; lia.
  - assert (Hlog : Z.log2 (q * 2 ^ e) = 52 + e).
    { apply Z.log2_unique; [lia |].
      replace (Z.succ (52 + e)) with (53 + e) by lia.
      rewrite !Z.pow_add_r by lia. nia. }
    rewrite Hlog. replace (52 + e - 52) with e by lia.
    apply Z.mod_mul. lia.
Qed.

(** Rounding does not pass a double: an integer between 0 and a double
    rounds to a double between 0 and that double. *)
Lemma round_below x y :
  0 <= x <= y → Number.representable y →
  ∃ k, Number.round x = Number.Int k ∧ 0 <= k <= y ∧ Number.representable k.
Proof.
  intros [Hx Hxy] Hy.
  destruct (decide (x < 2 ^ 53)) as [Hs | Hl].
  - exists x. rewrite round_safe by (rewrite Z.abs_eq; lia).
    split; [reflexivity |]. split; [lia |]. left. rewrite Z.abs_eq; lia.
  - destruct (round_large x ltac:(lia))
      as (q & r & q' & Hx' & Hr & He & Hq & Hq' & _ & Hround).
    set (e := Z.log2 x - 52) in *.
    assert (HP : 0 < 2 ^ e) by (apply Z.pow_pos_nonneg; lia).
    destruct Hy as [Hy | [Hy Hmod]]; rewrite Z.abs_eq in Hy by lia; [lia |].
    rewrite Z.abs_eq in Hmod by lia.
    assert (Hey : e <= Z.log2 y - 52).
    { unfold e. pose proof (Z.log2_le_mono x y ltac:(lia)). lia. }
    assert (Hdiv : ∃ c, y = c * 2 ^ e).
    { apply Z.mod_divide in Hmod; [| apply Z.pow_nonzero; lia].
      destruct Hmod as [c Hc]. exists (c * 2 ^ (Z.log2 y - 52 - e)).
      rewrite <- Z.mul_assoc, <- Z.pow_add_r by lia.
      replace (Z.log2 y - 52 - e + e) with (Z.log2 y - 52) by lia. exact Hc. }
    destruct Hdiv as [c Hc].
    assert (Hle : q' * 2 ^ e <= y).
    { destruct Hq' as [-> | [-> Hrpos]]; [nia |].
      assert (q < c) by nia. nia. }
    exists (q' * 2 ^ e). rewrite Hround.
    destruct (2 ^ 1024 <=? q' * 2 ^ e) eqn:Hov; [apply Z.leb_le in Hov; lia |].
    split; [reflexivity |]. split; [nia |].
    apply representable_large; [| exact He | lia].
    destruct Hq' as [-> | [-> _]]; lia.
Qed.

(** A double rounds to itself. *)
Lemma round_representable z :
  0 <= z → Number.representable z → Number.round z = Number.Int z.
Proof.
  intros Hz [Hs | [Hlt Hmod]]; [apply round_safe; exact Hs |].
  rewrite Z.abs_eq in Hlt, Hmod by lia.
  destruct (decide (z < 2 ^ 53)) as [Hs | Hl].
  - apply round_safe. rewrite Z.abs_eq; lia.
  - destruct (round_large z ltac:(lia))
      as (q & r & q' & Hx' & Hr & He & Hq & _ & Hr0 & Hround).
    set (e := Z.log2 z - 52) in *.
    assert (HP : 0 < 2 ^ e) by (apply Z.pow_pos_nonneg; lia).
    assert (r = 0).
    { assert (Hr' : r = z mod 2 ^ e).
      { rewrite Hx'. rewrite Z.add_comm, Z.mod_add by lia.
        symmetry. apply Z.mod_small. exact Hr. }
      lia. }
    rewrite Hround, (Hr0 H). replace (q * 2 ^ e) with z by lia.
    destruct (2 ^ 1024 <=? z) eqn:Hov; [apply Z.leb_le in Hov; lia | reflexivity].
Qed.

(** A rounded integer that is not negative is a double, and comes from
    an integer that is not negative. *)
Lemma round_nonneg_representable z k :
  Number.round z = Number.Int k → 0 <= k → 0 <= z ∧ Number.representable k.
Proof.
  intros Hround Hk.
  destruct (decide (Z.abs z < 2 ^ 53)) as [Hs | Hl].
  - rewrite round_safe in Hround by exact Hs. injection Hround as <-.
    split; [exact Hk | left; exact Hs].
  - destruct (decide (0 <= z)) as [Hz | Hz].
    + split; [exact Hz |].
      destruct (round_large z ltac:(lia))
        as (q & r & q' & Hx' & Hr & He & Hq & Hq' & _ & Hround').
      rewrite Hround' in Hround.
      destruct (2 ^ 1024 <=? _) eqn:Hov; [discriminate |].
      apply Z.leb_gt in Hov. injection Hround as <-.
      apply representable_large; [| exact He | exact Hov].
      destruct Hq' as [-> | [-> _]]; lia.
    + exfalso. unfold Number.round in Hround.
      destruct (Z.abs z <? 2 ^ 53) eqn:Hlt; [apply Z.ltb_lt in Hlt; lia |].
      destruct (2 ^ 1024 <=? _); [discriminate |].
      injection Hround as <-. rewrite Z.sgn_neg in Hk by lia.
      set (e := Z.log2 (Z.abs z) - 52) in *.
      assert (He : 1 <= e).
      { unfold e. pose proof (Z.log2_le_mono (2 ^ 53) (Z.abs z) ltac:(lia)) as H.
        rewrite Z.log2_pow2 in H by lia. lia. }
      assert (HP : 0 < 2 ^ e) by (apply Z.pow_pos_nonneg; lia).
      set (qq := if 2 * (Z.abs z mod 2 ^ e) <? 2 ^ e then Z.abs z / 2 ^ e
                 else if 2 ^ e <? 2 * (Z.abs z mod 2 ^ e) then Z.abs z / 2 ^ e + 1
                 else if Z.even (Z.abs z / 2 ^ e) then Z.abs z / 2 ^ e
                      else Z.abs z / 2 ^ e + 1) in *.
      assert (0 < Z.abs z / 2 ^ e).
      { apply Z.div_str_pos. split; [lia |].
        destruct (Z.log2_spec (Z.abs z) ltac:(lia)) as [Hlo _].
        assert (2 ^ e <= 2 ^ Z.log2 (Z.abs z)).
        { apply Z.pow_le_mono_r; unfold e; lia. }
        lia. }
      assert (0 < qq).
      { unfold qq. repeat destruct (_ <? _); try destruct (Z.even _); lia. }
      nia.
Qed.


(** A product with an integer that is an integer is a rounded product of
    integers. *)
Lemma mul_Int a b total :
  Number.mul a (Number.Int b) = Number.Int total →
  ∃ d, a = Number.Int d ∧ Number.round (d * b) = Number.Int total.
Proof.
  destruct a as [| s | d]; cbn [Number.mul]; [discriminate | |].
  - destruct (b =? 0); discriminate.
  - intros H. exists d. auto.
Qed.

(** ** Proofs: the session *)

Import QuizScreen.

Lemma matchAt_answerMatches qs all i a q :
  all !! i = Some a → a ≠ Hole → qs !! i = Some q →
  matchAt qs all i = answerMatches a q.
Proof.
  intros Ha Hh Hq. unfold matchAt, answerMatches, strictEq. rewrite Ha, Hq.
  destruct a; [congruence | | |];
    destruct (Question.correctAnswer q) as [[] |]; reflexivity.
Qed.

(** The reduction computes the count of the specification. *)
Lemma scoreFrom_spec qs all :
  (length all ≤ length qs)%nat →
  ∀ answers index acc,
    drop index all = answers →
    scoreFrom qs index answers acc =
    Ok (acc + Z.of_nat (length (filter (λ i, matchAt qs all i = true)
                                       (seq index (length answers))))).
Proof.
  intros Hlen. induction answers as [| a rest IH]; intros index acc Hdrop.
  - simpl. f_equal. lia.
  - assert (Ha : all !! index = Some a).
    { pose proof (lookup_drop all index 0) as H. rewrite Hdrop in H.
      rewrite Nat.add_0_r in H. symmetry. exact H. }
    assert (Hrest : drop (S index) all = rest).
    { rewrite (drop_S _ _ _ Ha) in Hdrop. congruence. }
    destruct (lookup_lt_is_Some_2 qs index) as [q Hq].
    { apply lookup_lt_Some in Ha. lia. }
    cbn [length seq]. rewrite filter_cons.
    assert (Hcase : a = Hole ∨ a ≠ Hole)
      by (destruct a; [left; reflexivity | right; discriminate ..]).
    destruct Hcase as [-> | Hh].
    + assert (Hm : matchAt qs all index = false).
      { unfold matchAt. rewrite Ha. reflexivity. }
      cbn [scoreFrom]. rewrite (IH _ _ Hrest).
      destruct (decide (matchAt qs all index = true)); [congruence | reflexivity].
    + pose proof (matchAt_answerMatches _ _ _ _ _ Ha Hh Hq) as Hm.
      assert (Hstep : scoreFrom qs index (a :: rest) acc =
                      scoreFrom qs (S index) rest
                        (if answerMatches a q then acc + 1 else acc)).
      { simpl. rewrite Hq. destruct a; [congruence | | |]; reflexivity. }
      rewrite Hstep, (IH _ _ Hrest). f_equal.
      destruct (decide (matchAt qs all index = true)) as [Ht | Hf].
      * rewrite <- Hm, Ht. cbn [length]. lia.
      * rewrite <- Hm. destruct (matchAt qs all index); [congruence | lia].
Qed.


Lemma count_agree (f g : nat → bool) n :
  ∀ k, (∀ j, (k ≤ j < k + n)%nat → f j = g j) →
  length (filter (λ j, f j = true) (seq k n))
  = length (filter (λ j, g j = true) (seq k n)).
Proof.
  induction n as [| n IH]; intros k Hfg; [reflexivity |].
  cbn [seq]. rewrite !filter_cons, <- (Hfg k) by lia.
  specialize (IH (S k)). rewrite <- plus_n_Sm in Hfg.
  destruct (decide (f k = true)); cbn [length]; rewrite IH;
    try reflexivity; intros j Hj; apply Hfg; lia.
Qed.


Lemma handleSubmit_spec p s :
  (length (userAnswers s) ≤ length (questions p))%nat →
  handleSubmit p s = Ok (setTimerRunning false s, resultFor p s).
Proof.
  intros Hlen. unfold handleSubmit. cbn [userAnswers setTimerRunning].
  rewrite (scoreFrom_spec _ (userAnswers s) Hlen (userAnswers s) 0%nat 0 eq_refl).
  reflexivity.
Qed.

(** The timer effect only sets or clears the timer: it is live afterwards
    exactly when the session is not paused and [timeLeft <= 0] is false;
    and the effect emits the result of the specification, exactly when
    the session is not paused and [timeLeft <= 0] is true. *)
Lemma timerEffect_spec p s :
  renderable p s →
  timerEffect p s
  = Ok (setTimerRunning
          (negb (isPaused s) && negb (Number.leb (timeLeft s) (Number.Int 0))) s,
        if negb (isPaused s) && Number.leb (timeLeft s) (Number.Int 0)
        then [resultFor p s] else []).
Proof.
  intros (Hlen & _). unfold timerEffect. cbn [isPaused timeLeft setTimerRunning].
  destruct (isPaused s) eqn:Hp; [reflexivity |].
  cbn [negb andb]. destruct (Number.leb (timeLeft s) (Number.Int 0)).
  - rewrite handleSubmit_spec by (cbn [userAnswers setTimerRunning]; lia).
    reflexivity.
  - reflexivity.
Qed.

Lemma timerEffect_invariant p s :
  renderable p s →
  ∃ s' emitted,
    timerEffect p s = Ok (s', emitted) ∧ invariant p s' ∧
    (∀ r, r ∈ emitted → r = resultFor p s').
Proof.
  intros Hr. rewrite (timerEffect_spec p s Hr).
  eexists _, _. split; [reflexivity |]. split.
  - split; [exact Hr |]. cbn [timerRunning isPaused timeLeft setTimerRunning].
    intros Hb. apply andb_true_iff in Hb as [Hp Ht].
    apply negb_true_iff in Hp. apply negb_true_iff in Ht. auto.
  - intros r Hin. destruct (_ && _).
    + apply list_elem_of_singleton in Hin as ->. reflexivity.
    + inversion Hin.
Qed.

(** An answer written at an index in range keeps the length. *)
Lemma length_assign answers i a :
  0 <= i < Z.of_nat (length answers) →
  length (assign (spread answers) i a) = length answers.
Proof.
  intros Hi. unfold assign, spread.
  destruct (decide (i < 0)); [lia |].
  rewrite length_fmap.
  destruct (decide (Z.to_nat i < length answers)%nat); [| lia].
  rewrite length_insert, length_fmap. reflexivity.
Qed.

Lemma handleAnswerChange_renderable p a s :
  renderable p s → renderable p (handleAnswerChange a s).
Proof.
  intros (Hlen & Hidx). unfold renderable, handleAnswerChange.
  cbn [userAnswers currentQuestionIndex setUserAnswers].
  rewrite length_assign by lia. auto.
Qed.

Lemma changeQuestion_invariant p i s :
  invariant p s → invariant p (changeQuestion p i s).
Proof.
  intros Hinv. unfold changeQuestion.
  destruct (decide _) as [Hi | _]; [| exact Hinv].
  destruct Hinv as ((Hlen & _) & Htimer).
  split; [split; [exact Hlen |] | exact Htimer].
  cbn [currentQuestionIndex setTranslatedContent setCurrentQuestionIndex]. lia.
Qed.

Lemma translateSettle_frame currentQuestion reply s :
  ∃ content,
    (translateSettle currentQuestion reply s).1
    = setIsTranslating false (setTranslatedContent content s).
Proof.
  unfold translateSettle. destruct (translateOutcome _ _) as [c |].
  - exists (Some c). reflexivity.
  - exists (translatedContent s). destruct s; reflexivity.
Qed.

(** Every event is handled without an exception and keeps the
    invariant; what it emits is the result of the specification for the
    state it leaves. *)
Lemma step_invariant p e s :
  invariant p s →
  ∃ s' emitted,
    step p e s = Ok (s', emitted) ∧ invariant p s' ∧
    (∀ r, r ∈ emitted → r = resultFor p s').
Proof.
  intros Hinv. pose proof Hinv as (Hr & Htimer).
  pose proof Hr as (Hlen & Hidx).
  assert (Hnone : ∀ s', invariant p s' →
            ∃ s'' emitted,
              @Ok TypeError _ (s', []) = Ok (s'', emitted) ∧ invariant p s'' ∧
              (∀ r : QuizResult.t, r ∈ emitted → r = resultFor p s'')).
  { intros s' H'. exists s', []. split; [reflexivity |]. split; [exact H' |].
    intros r Hin. inversion Hin. }
  destruct e; cbn [step].
  - destruct (timerRunning s) eqn:Hrun; [| apply Hnone; exact Hinv].
    apply timerEffect_invariant. exact Hr.
  - apply timerEffect_invariant. exact Hr.
  - destruct (isPaused s); [| apply Hnone; exact Hinv].
    apply timerEffect_invariant. exact Hr.
  - apply timerEffect_invariant. apply handleAnswerChange_renderable. exact Hr.
  - apply Hnone. apply changeQuestion_invariant. exact Hinv.
  - apply Hnone. apply changeQuestion_invariant. exact Hinv.
  - apply Hnone. apply changeQuestion_invariant. exact Hinv.
  - rewrite handleSubmit_spec by lia. cbn.
    exists (setTimerRunning false s), [resultFor p s].
    split; [reflexivity |]. split.
    + split; [exact Hr | discriminate].
    + intros r Hin. apply list_elem_of_singleton in Hin as ->. reflexivity.
  - apply timerEffect_invariant. exact Hr.
  - apply Hnone. split; [exact Hr | exact Htimer].
  - apply Hnone. split; [exact Hr | exact Htimer].
  - apply Hnone. split; [exact Hr | exact Htimer].
  - apply Hnone.
    destruct (translateSettle_frame currentQuestion reply s) as [c ->].
    split; [exact Hr | exact Htimer].
Qed.

Lemma initial_renderable p : questions p ≠ [] → renderable p (initial p).
Proof.
  intros Hne. unfold renderable. cbn [userAnswers currentQuestionIndex initial].
  rewrite length_replicate. destruct (questions p); [congruence |].
  cbn [length]. lia.
Qed.

Lemma mount_nonempty p :
  questions p ≠ [] → mount p = timerEffect p (initial p).
Proof.
  intros Hne. unfold mount, questionAt. cbn [currentQuestionIndex initial].
  destruct (decide (0 <= 0)) as [_ | H]; [| lia].
  destruct (questions p) as [| q qs] eqn:Hqs; [congruence | reflexivity].
Qed.

Lemma mount_invariant p :
  questions p ≠ [] →
  ∃ s emitted,
    mount p = Ok (s, emitted) ∧ invariant p s ∧
    (∀ r, r ∈ emitted → r = resultFor p s).
Proof.
  intros Hne. rewrite (mount_nonempty p Hne).
  apply timerEffect_invariant, initial_renderable, Hne.
Qed.

Lemma mount_Ok_nonempty p s emitted :
  mount p = Ok (s, emitted) → questions p ≠ [].
Proof.
  unfold mount, questionAt. cbn [currentQuestionIndex initial].
  destruct (decide (0 <= 0)) as [_ | H]; [| lia].
  destruct (questions p); [discriminate | congruence].
Qed.

(** A quiz with no question cannot be shown: the first render throws. *)
Lemma mount_empty p : questions p = [] → mount p = Throw ReadOfUndefined.
Proof.
  intros Hq. unfold mount, questionAt. cbn [currentQuestionIndex initial].
  destruct (decide (0 <= 0)) as [_ | H]; [| lia].
  rewrite Hq. reflexivity.
Qed.

Lemma reachable_invariant p s : reachable p s → invariant p s.
Proof.
  induction 1 as [s emitted Hm | s e s' emitted _ IH Hstep].
  - destruct (mount_invariant p (mount_Ok_nonempty _ _ _ Hm))
      as (s0 & em0 & Hm0 & Hinv & _).
    congruence.
  - destruct (step_invariant p e s IH) as (s1 & em1 & H1 & Hinv & _).
    congruence.
Qed.

(** A run from a reachable state goes through without an exception, and
    every result it emits is the result of the specification for a
    reachable state. *)
Lemma run_emits p events :
  ∀ s, reachable p s →
  ∃ s' emitted,
    run p events s = Ok (s', emitted) ∧ reachable p s' ∧
    (∀ r, r ∈ emitted → ∃ s1, reachable p s1 ∧ r = resultFor p s1).
Proof.
  induction events as [| e rest IH]; intros s Hreach.
  - exists s, []. split; [reflexivity |]. split; [exact Hreach |].
    intros r Hin. inversion Hin.
  - destruct (step_invariant p e s (reachable_invariant _ _ Hreach))
      as (s1 & em1 & Hstep & _ & Hem1).
    assert (Hreach1 : reachable p s1) by (eapply reachable_step; eauto).
    destruct (IH s1 Hreach1) as (s2 & em2 & Hrun & Hreach2 & Hem2).
    exists s2, (em1 ++ em2)%list. cbn [run]. rewrite Hstep. simpl. rewrite Hrun. simpl.
    split; [reflexivity |]. split; [exact Hreach2 |].
    intros r Hin. apply elem_of_app in Hin as [Hin | Hin]; [| auto].
    exists s1. auto.
Qed.

Lemma session_emits p events :
  questions p ≠ [] →
  ∃ s emitted,
    session p events = Ok (s, emitted) ∧ reachable p s ∧
    (∀ r, r ∈ emitted → ∃ s1, reachable p s1 ∧ r = resultFor p s1).
Proof.
  intros Hne. destruct (mount_invariant p Hne) as (s0 & em0 & Hm & _ & Hem0).
  assert (Hreach0 : reachable p s0) by (eapply reachable_mount; eauto).
  destruct (run_emits p events s0 Hreach0) as (s & em & Hrun & Hreach & Hem).
  exists s, (em0 ++ em)%list. unfold session. rewrite Hm. simpl. rewrite Hrun. simpl.
  split; [reflexivity |]. split; [exact Hreach |].
  intros r Hin. apply elem_of_app in Hin as [Hin | Hin]; [| auto].
  exists s0. auto.
Qed.

(** *** What the events leave alone *)

Lemma step_framed p e s s' emitted :
  invariant p s → step p e s = Ok (s', emitted) → framed e s s'.
Proof.
  intros (Hr & Htimer) Hstep. pose proof Hr as (Hlen & Hidx).
  unfold framed.
  destruct e; cbn [step] in Hstep;
    try (injection Hstep as <- _; repeat split; intros; congruence).
  - destruct (timerRunning s) eqn:Hrun.
    + destruct (Htimer eq_refl) as [_ Hpos].
      rewrite timerEffect_spec in Hstep by exact Hr.
      injection Hstep as <- _.
      cbn [userAnswers timeLeft currentQuestionIndex isPaused
           setTimerRunning setTimeLeft].
      repeat split; intros; try congruence. right. split; [exact Hpos | reflexivity].
    + injection Hstep as <- _. repeat split; intros; try congruence. left. reflexivity.
  - rewrite timerEffect_spec in Hstep by exact Hr. injection Hstep as <- _.
    cbn [userAnswers timeLeft currentQuestionIndex isPaused
         setTimerRunning setIsPaused].
    repeat split; intros; congruence.
  - destruct (isPaused s) eqn:Hp.
    + rewrite timerEffect_spec in Hstep by exact Hr. injection Hstep as <- _.
      cbn [userAnswers timeLeft currentQuestionIndex isPaused
           setTimerRunning setIsPaused].
      repeat split; intros; congruence.
    + injection Hstep as <- _. repeat split; intros; congruence.
  - rewrite timerEffect_spec in Hstep
      by (apply handleAnswerChange_renderable; exact Hr).
    injection Hstep as <- _. unfold handleAnswerChange.
    cbn [userAnswers timeLeft currentQuestionIndex isPaused
         setTimerRunning setUserAnswers].
    repeat split; intros; try congruence. exfalso. eapply H. reflexivity.
  - injection Hstep as <- _. unfold goToNext, changeQuestion.
    destruct (decide _); repeat split; intros; congruence.
  - injection Hstep as <- _. unfold goToPrev, changeQuestion.
    destruct (decide _); repeat split; intros; congruence.
  - injection Hstep as <- _. unfold skipQuestion, goToNext, changeQuestion.
    destruct (decide _); repeat split; intros; congruence.
  - rewrite handleSubmit_spec in Hstep by lia. injection Hstep as <- _.
    repeat split; intros; congruence.
  - rewrite timerEffect_spec in Hstep by exact Hr. injection Hstep as <- _.
    repeat split; intros; congruence.
  - injection Hstep as <- _.
    destruct (translateSettle_frame currentQuestion reply s) as [c ->].
    repeat split; intros; congruence.
Qed.

(** *** The time left *)

Lemma seconds_representable p total :
  seconds p = Number.Int total → 0 <= total → Number.representable total.
Proof.
  unfold seconds. intros H Ht. apply mul_Int in H as (d & _ & H).
  exact (proj2 (round_nonneg_representable _ _ H Ht)).
Qed.

Lemma initial_onTheClock p : onTheClock p (initial p).
Proof.
  unfold onTheClock. change (timeLeft (initial p)) with (seconds p).
  destruct (seconds p) as [| negative | total] eqn:Hs; [reflexivity .. |].
  exists total. split; [reflexivity |].
  destruct (decide (total < 0)) as [Hn | Hn]; [left; auto | right].
  split; [lia |]. apply (seconds_representable p); [exact Hs | lia].
Qed.

Lemma tick_onTheClock p s :
  onTheClock p s → Number.leb (timeLeft s) (Number.Int 0) = false →
  onTheClock p (setTimeLeft (Number.sub (timeLeft s) (Number.Int 1)) s).
Proof.
  unfold onTheClock. cbn [timeLeft setTimeLeft].
  destruct (seconds p) as [| negative | total].
  - intros -> _. reflexivity.
  - intros -> _. reflexivity.
  - intros (t & -> & Ht) Hpos. cbn [Number.leb] in Hpos.
    apply Z.leb_gt in Hpos. cbn [Number.sub].
    destruct Ht as [[Hn ->] | [Hb Hrep]]; [lia |].
    destruct (round_below (t - 1) t ltac:(lia) Hrep) as (k & -> & Hk & Hrepk).
    exists k. split; [reflexivity |]. right. split; [lia | exact Hrepk].
Qed.

Lemma onTheClock_timeLeft p s s' :
  timeLeft s' = timeLeft s → onTheClock p s → onTheClock p s'.
Proof. unfold onTheClock. intros ->. auto. Qed.

Lemma reachable_onTheClock p s : reachable p s → onTheClock p s.
Proof.
  induction 1 as [s emitted Hm | s e s' emitted Hreach IH Hstep].
  - pose proof (mount_Ok_nonempty _ _ _ Hm) as Hne.
    rewrite (mount_nonempty p Hne),
      (timerEffect_spec _ _ (initial_renderable p Hne)) in Hm.
    injection Hm as <- _.
    apply (onTheClock_timeLeft p (initial p)); [reflexivity |].
    apply initial_onTheClock.
  - destruct (step_framed _ _ _ _ _ (reachable_invariant _ _ Hreach) Hstep)
      as (_ & Hother & Htick & _).
    destruct e;
      try (apply (onTheClock_timeLeft p s);
           [apply Hother; discriminate | exact IH]).
    destruct (Htick eq_refl) as [Hsame | [Hpos Hsub]].
    + apply (onTheClock_timeLeft p s); [exact Hsame | exact IH].
    + apply (onTheClock_timeLeft p
               (setTimeLeft (Number.sub (timeLeft s) (Number.Int 1)) s));
        [exact Hsub |].
      apply tick_onTheClock; assumption.
Qed.


(** *** Submission *)






Example sample_session_result :
  ∃ s r,
    session sampleProps
      [Answer (js "light"); Next; Answer (js "Chlorophyll"); Tick; Tick; Submit]
    = Ok (s, [r]) ∧
    QuizResult.score r = 1 ∧ QuizResult.timeTaken r = Number.Int 2 ∧
    QuizResult.userAnswers r = [Str (js "light"); Str (js "Chlorophyll")].
Proof. eexists _, _. split; [vm_compute; reflexivity |]. repeat split. Qed.



(** *** Submitting more than once *)

(** Once the time is up, every run of the timer effect submits. *)
Lemma expired_effect_submits p s :
  reachable p s → isPaused s = false →
  Number.leb (timeLeft s) (Number.Int 0) = true →
  step p ParentRender s = Ok (setTimerRunning false s, [resultFor p s]).
Proof.
  intros Hreach Hp Ht. destruct (reachable_invariant _ _ Hreach) as (Hr & _).
  cbn [step]. rewrite timerEffect_spec by exact Hr. rewrite Hp, Ht. reflexivity.
Qed.

(** C3: the code submits a session more than once. The sample session,
    left alone for its 60 seconds, is submitted by the timer effect when
    the time left reaches 0; storing the result renders App, which hands
    the screen a new [onComplete], and the effect, run again with no
    time left, submits the same result a second time: the stored results
    then hold two results for the one session. *)
Theorem expired_session_is_stored_twice :
  ∃ s r,
    session sampleProps (replicate 60 Tick ++ [ParentRender])%list
    = Ok (s, [r; r]) ∧
    timeLeft s = Number.Int 0 ∧ timerRunning s = false ∧
    QuizResult.timeTaken r = Number.Int 60 ∧ QuizResult.score r = 0 ∧
    ∀ id1 id2,
      ∃ r1 r2,
        App.handleQuizComplete id2 r (App.handleQuizComplete id1 r []) = [r2; r1] ∧
        QuizResult.id r1 = id1 ∧ QuizResult.id r2 = id2 ∧
        QuizResult.quiz r1 = QuizResult.quiz r2 ∧
        QuizResult.userAnswers r1 = QuizResult.userAnswers r2 ∧
        QuizResult.score r1 = QuizResult.score r2 ∧
        QuizResult.timeTaken r1 = QuizResult.timeTaken r2.
Proof.
  eexists _, _. split; [vm_compute; reflexivity |].
  repeat split. intros id1 id2. eexists _, _. repeat split.
Qed.

(** *** Pausing *)

Lemma paused_tick p s :
  invariant p s → isPaused s = true → step p Tick s = Ok (s, []).
Proof.
  intros (_ & Htimer) Hp. cbn [step].
  destruct (timerRunning s); [| reflexivity].
  destruct (Htimer eq_refl) as [Hp' _]. congruence.
Qed.

Lemma paused_ticks p s n :
  invariant p s → isPaused s = true → run p (replicate n Tick) s = Ok (s, []).
Proof.
  intros Hinv Hp. induction n as [| n IH]; [reflexivity |].
  cbn [replicate run]. rewrite (paused_tick _ _ Hinv Hp). simpl. rewrite IH.
  reflexivity.
Qed.

(** One second off a time left of at most 2^53 is exact. *)
Lemma sub_one t :
  0 < t <= 2 ^ 53 →
  Number.sub (Number.Int t) (Number.Int 1) = Number.Int (t - 1).
Proof.
  intros Ht. cbn [Number.sub]. apply round_safe. rewrite Z.abs_eq; lia.
Qed.

(** While the countdown runs on a time left of at most 2^53, [n] ticks
    take [n] seconds off the time left and change nothing else of the
    session. *)
Lemma running_ticks p n :
  ∀ s t, renderable p s → isPaused s = false →
    timeLeft s = Number.Int t →
    (0 < t → timerRunning s = true) →
    Z.of_nat n <= t <= 2 ^ 53 →
    ∃ s' emitted,
      run p (replicate n Tick) s = Ok (s', emitted) ∧
      timeLeft s' = Number.Int (t - Z.of_nat n) ∧
      isPaused s' = false ∧
      userAnswers s' = userAnswers s ∧
      currentQuestionIndex s' = currentQuestionIndex s.
Proof.
  induction n as [| n IH]; intros s t Hr Hp Ht Hrun Hn.
  - exists s, []. split; [reflexivity |].
    split; [rewrite Ht; f_equal; lia | auto].
  - assert (Hrunning : timerRunning s = true) by (apply Hrun; lia).
    assert (Hr1 : renderable p (setTimeLeft (Number.Int (t - 1)) s)) by exact Hr.
    pose proof (timerEffect_spec p _ Hr1) as Heff.
    cbn [isPaused timeLeft setTimeLeft] in Heff. rewrite Hp in Heff.
    cbn [negb andb Number.leb] in Heff.
    set (s1 := setTimerRunning (negb (t - 1 <=? 0))
                 (setTimeLeft (Number.Int (t - 1)) s)) in Heff.
    destruct (IH s1 (t - 1)) as (s' & emitted & Hrun' & Ht' & Hp' & Ha' & Hi').
    + exact Hr1.
    + exact Hp.
    + reflexivity.
    + unfold s1. cbn [timerRunning setTimerRunning].
      intros H. apply negb_true_iff, Z.leb_gt. exact H.
    + lia.
    + eexists s', _. cbn [replicate run step].
      rewrite Hrunning, Ht, sub_one by lia. rewrite Heff. simpl.
      rewrite Hrun'. simpl. split; [reflexivity |].
      rewrite Ht', Hp', Ha', Hi'. unfold s1.
      cbn [timeLeft isPaused userAnswers currentQuestionIndex
           setTimerRunning setTimeLeft].
      split; [f_equal; lia | auto].
Qed.

(** C8, refuted as stated: with a duration of 10^15 minutes the time
    left is 6 * 10^16 seconds, and one second less is not a double: after
    a pause and a resume, 10 ticks leave the time left as it was. With
    the Duration field emptied the time left is [NaN], and ticks leave it
    [NaN]. *)
Lemma ticks_leave_a_large_time_left :
  (∃ s0 paused s1 s2,
     mount longProps = Ok (s0, []) ∧
     step longProps TogglePause s0 = Ok (paused, []) ∧
     isPaused paused = true ∧ timeLeft paused = Number.Int (6 * 10 ^ 16) ∧
     step longProps Resume paused = Ok (s1, []) ∧
     isPaused s1 = false ∧ timerRunning s1 = true ∧
     run longProps (replicate 10 Tick) s1 = Ok (s2, []) ∧
     timeLeft s2 = Number.Int (6 * 10 ^ 16)) ∧
  (∃ s0 paused s1 s2,
     mount emptiedDurationProps = Ok (s0, []) ∧
     step emptiedDurationProps TogglePause s0 = Ok (paused, []) ∧
     isPaused paused = true ∧ timeLeft paused = Number.NaN ∧
     step emptiedDurationProps Resume paused = Ok (s1, []) ∧
     isPaused s1 = false ∧ timerRunning s1 = true ∧
     run emptiedDurationProps (replicate 10 Tick) s1 = Ok (s2, []) ∧
     timeLeft s2 = Number.NaN).
Proof.
  split; eexists _, _, _, _;
    (split; [vm_compute; reflexivity |]);
    (split; [vm_compute; reflexivity |]);
    (split; [reflexivity |]); (split; [reflexivity |]);
    (split; [vm_compute; reflexivity |]);
    (split; [reflexivity |]); (split; [reflexivity |]);
    (split; [vm_compute; reflexivity | reflexivity]).
Qed.

(** C8, amended: while the session is paused, ticks change nothing of
    its state; once it is resumed, by either button, the time left is the
    frozen one, and when that is an integer of at most 2^53, [n] ticks of
    the running countdown take exactly [n] seconds off it. *)
Theorem pause_freezes_countdown p s n :
  reachable p s → isPaused s = true →
  run p (replicate n Tick) s = Ok (s, []) ∧
  ∀ e t, e = Resume ∨ e = TogglePause →
    timeLeft s = Number.Int t → Z.of_nat n <= t <= 2 ^ 53 →
    ∃ s1 emitted1 s2 emitted2,
      step p e s = Ok (s1, emitted1) ∧
      isPaused s1 = false ∧ timeLeft s1 = timeLeft s ∧
      userAnswers s1 = userAnswers s ∧
      run p (replicate n Tick) s1 = Ok (s2, emitted2) ∧
      timeLeft s2 = Number.Int (t - Z.of_nat n) ∧
      userAnswers s2 = userAnswers s.
Proof.
  intros Hreach Hp. pose proof (reachable_invariant _ _ Hreach) as Hinv.
  split; [apply paused_ticks; assumption |].
  intros e t He Ht Hn. destruct Hinv as (Hr & _).
  assert (Hstep : step p e s = timerEffect p (setIsPaused false s)).
  { destruct He as [-> | ->]; cbn [step]; rewrite Hp; reflexivity. }
  assert (Hr1 : renderable p (setIsPaused false s)) by exact Hr.
  pose proof (timerEffect_spec p _ Hr1) as Heff.
  cbn [isPaused timeLeft setIsPaused negb andb] in Heff.
  rewrite Ht in Heff. cbn [Number.leb] in Heff.
  set (s1 := setTimerRunning (negb (t <=? 0)) (setIsPaused false s)) in Heff.
  destruct (running_ticks p n s1 t) as (s2 & emitted2 & Hrun & Ht2 & _ & Ha & _).
  - exact Hr.
  - reflexivity.
  - exact Ht.
  - unfold s1. cbn [timerRunning setTimerRunning].
    intros H. apply negb_true_iff, Z.leb_gt. exact H.
  - exact Hn.
  - eexists s1, _, s2, emitted2. rewrite Hstep, Heff.
    split; [reflexivity |]. repeat split; assumption.
Qed.

Lemma pausedState_reachable : reachable sampleProps pausedState.
Proof.
  apply (reachable_step sampleProps sampleState TogglePause pausedState []).
  - apply (reachable_mount sampleProps sampleState []). vm_compute. reflexivity.
  - vm_compute. reflexivity.
Qed.

Lemma pause_freezes_countdown_witness :
  run sampleProps (replicate 10 Tick) pausedState = Ok (pausedState, []) ∧
  ∃ s1 emitted1 s2 emitted2,
    step sampleProps Resume pausedState = Ok (s1, emitted1) ∧
    isPaused s1 = false ∧ timeLeft s1 = timeLeft pausedState ∧
    userAnswers s1 = userAnswers pausedState ∧
    run sampleProps (replicate 10 Tick) s1 = Ok (s2, emitted2) ∧
    timeLeft s2 = Number.Int (60 - Z.of_nat 10) ∧
    userAnswers s2 = userAnswers pausedState.
Proof.
  destruct (pause_freezes_countdown sampleProps pausedState 10
              pausedState_reachable eq_refl) as [Hfrozen Hresumed].
  split; [exact Hfrozen |].
  apply (Hresumed Resume 60); [left; reflexivity | reflexivity |].
  vm_compute. split; discriminate.
Defined.

Example pause_then_resume_sample :
  ∃ s,
    run sampleProps
      (TogglePause :: replicate 10 Tick ++ Resume :: replicate 10 Tick)%list
      sampleState
    = Ok (s, []) ∧ timeLeft s = Number.Int 50.
Proof. eexists. split; [vm_compute; reflexivity | reflexivity]. Qed.

(** *** Translation *)

Lemma translateText_mismatch texts text result items :
  Json.getProp result (js "translations") = Ok (Some (JArr items)) →
  length items ≠ length texts →
  translateText (Batch texts) (ProviderText text (Some result))
  = Throw FailedToTranslate.
Proof.
  intros Hget Hlen. unfold translateText. rewrite Hget.
  rewrite (bool_decide_eq_false_2 _ Hlen), andb_false_r. reflexivity.
Qed.

(** Whatever the reply, a multiple_choice question gets a translated
    question with one translation per option, or nothing. *)
Lemma translateOutcome_complete q reply :
  Question.questionType q = Question.multiple_choice →
  translateOutcome (Some q) reply = None ∨
  ∃ translatedQuestion translatedOptions,
    translateOutcome (Some q) reply
    = Some {| question := translatedQuestion; options := Some translatedOptions |} ∧
    length translatedOptions = length (Question.options q).
Proof.
  intros Hmc. unfold translateOutcome. rewrite Hmc.
  destruct (translateText _ _) as [[items | t] |]; auto.
  destruct (bool_decide _) eqn:Hlen; auto.
  apply bool_decide_eq_true in Hlen.
  destruct items as [| tq topts]; auto.
  right. exists tq, topts. split; [reflexivity |].
  cbn [length textsToTranslate] in Hlen. lia.
Qed.

(** C9: for a multiple_choice question with 4 options the translation
    asks for exactly 5 strings, the question text and the options; a
    reply whose translations are of another length raises the alert,
    leaves the translated content empty and the rest of the session as it
    was; and whatever the reply, no partial translation is set. *)
Theorem translate_mismatch p s q :
  questionAt p (currentQuestionIndex s) = Some q →
  Question.questionType q = Question.multiple_choice →
  length (Question.options q) = 4%nat →
  (∃ texts, translateInput q = Batch texts ∧ length texts = 5%nat ∧
            texts = Question.questionText q :: Question.options q) ∧
  (∀ text result items,
     Json.getProp result (js "translations") = Ok (Some (JArr items)) →
     length items ≠ 5%nat →
     let (s', alert) := handleTranslate p (ProviderText text (Some result)) s in
     alert = true ∧ translatedContent s' = None ∧ isTranslating s' = false ∧
     currentQuestionIndex s' = currentQuestionIndex s ∧
     userAnswers s' = userAnswers s ∧ timeLeft s' = timeLeft s ∧
     isPaused s' = isPaused s ∧ timerRunning s' = timerRunning s) ∧
  (∀ reply,
     let (s', alert) := handleTranslate p reply s in
     (alert = true ∧ translatedContent s' = None) ∨
     (alert = false ∧
      ∃ translatedQuestion translatedOptions,
        translatedContent s'
        = Some {| question := translatedQuestion;
                  options := Some translatedOptions |} ∧
        length translatedOptions = 4%nat)).
Proof.
  intros Hq Hmc Hopts. split; [| split].
  - exists (textsToTranslate q). unfold translateInput. rewrite Hmc.
    split; [reflexivity |]. split; [| reflexivity].
    cbn [textsToTranslate length]. rewrite Hopts. reflexivity.
  - intros text result items Hget Hlen. unfold handleTranslate.
    change (currentQuestionIndex (translateStart s)) with (currentQuestionIndex s).
    rewrite Hq. unfold translateSettle, translateOutcome, translateInput.
    rewrite Hmc, (translateText_mismatch _ text result items Hget).
    + repeat split.
    + cbn [textsToTranslate length]. rewrite Hopts. exact Hlen.
  - intros reply. unfold handleTranslate.
    change (currentQuestionIndex (translateStart s)) with (currentQuestionIndex s).
    rewrite Hq. unfold translateSettle.
    destruct (translateOutcome_complete q reply Hmc)
      as [-> | (tq & topts & -> & Hlen)].
    + left. split; reflexivity.
    + right. split; [reflexivity |]. exists tq, topts.
      split; [reflexivity | congruence].
Qed.

Lemma translate_mismatch_witness :
  translateInput leavesQuestion
  = Batch [js "What do leaves absorb?"; js "light"; js "water"; js "air"; js "soil"] ∧
  let (s', alert) := handleTranslate sampleProps fourTranslations sampleState in
  alert = true ∧ translatedContent s' = None ∧ timeLeft s' = Number.Int 60.
Proof.
  destruct (translate_mismatch sampleProps sampleState leavesQuestion
              eq_refl eq_refl eq_refl) as ((texts & Hin & _ & ->) & Hmis & _).
  split; [exact Hin |].
  specialize (Hmis (js "") (obj [("translations", strs ["a"; "b"; "c"; "d"])])
                [JStr (js "a"); JStr (js "b"); JStr (js "c"); JStr (js "d")]).
  change (handleTranslate sampleProps fourTranslations sampleState)
    with (handleTranslate sampleProps
            (ProviderText (js "")
               (Some (obj [("translations", strs ["a"; "b"; "c"; "d"])])))
            sampleState).
  destruct (handleTranslate _ _ _) as [s' alert].
  destruct Hmis as (Ha & Hc & _ & _ & _ & Ht & _).
  - vm_compute. reflexivity.
  - discriminate.
  - repeat split; [exact Ha | exact Hc | rewrite Ht; reflexivity].
Defined.

(** ** Further properties of the validator *)

Lemma validateQuestion_again q q' :
  validateQuestion q = Ok q' → validateQuestion q' = Ok q'.
Proof.
  intros H. pose proof H as H0.
  apply validateQuestion_Ok_inv in H0 as (fields & -> & [[_ ->] | [Htype ->]]).
  - exact H.
  - rewrite validateQuestion_blank.
    + rewrite insert_insert_eq. reflexivity.
    + rewrite lookup_insert_ne by js_neq. exact Htype.
Qed.

Lemma validateQuestions_again qs qs' :
  validateQuestions qs = Ok qs' → validateQuestions qs' = Ok qs'.
Proof.
  intros H. apply validateQuestions_Forall2 in H.
  induction H as [| q q' qs qs' Hq _ IH]; [reflexivity |].
  simpl. rewrite (validateQuestion_again _ _ Hq). simpl. rewrite IH. reflexivity.
Qed.

(** Every question of an accepted quiz is an object whose questionType is
    one of the two strings: a multiple_choice question with four non-blank
    string options that hold its correct answer, or a fill_in_the_blank
    question with no options. *)
Theorem accepted_questions_shape quizData quiz :
  validateQuiz quizData = Ok quiz →
  ∀ q, q ∈ questionsOf quiz →
    ∃ fields, q = JObj fields ∧
      ((fields !! js "questionType" = Some (JStr (js "multiple_choice")) ∧
        wellFormedOptions (fields !! js "options") ∧
        answerAmong (fields !! js "options") (fields !! js "correctAnswer")) ∨
       (fields !! js "questionType" = Some (JStr (js "fill_in_the_blank")) ∧
        fields !! js "options" = Some (JArr []))).
Proof.
  intros Hv q Hin.
  apply validateQuiz_Ok_inv in Hv as (qfields & qs & qs' & -> & _ & Hqs & ->).
  unfold questionsOf in Hin. simpl in Hin. rewrite lookup_insert_eq in Hin.
  apply validateQuestions_Forall2 in Hqs.
  apply list_elem_of_lookup in Hin as [i Hi].
  destruct (Forall2_lookup_r _ _ _ _ _ Hqs Hi) as (q0 & _ & Hq0).
  pose proof Hq0 as Hinv.
  apply validateQuestion_Ok_inv in Hinv as (fields & -> & [[Hmc ->] | [Hfb ->]]).
  - exists fields. split; [reflexivity |]. left. split; [exact Hmc |].
    rewrite (validateQuestion_choice _ Hmc) in Hq0.
    destruct (optionsInvalid (fields !! js "options")) eqn:Hinvalid;
      [discriminate |].
    apply optionsInvalid_false in Hinvalid. split; [exact Hinvalid |].
    apply (answerInOptions_true _ _ Hinvalid).
    destruct (answerInOptions _ _); [reflexivity | discriminate].
  - eexists. split; [reflexivity |]. right.
    rewrite lookup_insert_ne by js_neq. rewrite lookup_insert_eq. auto.
Qed.

Lemma accepted_questions_shape_witness :
  ∃ fields,
    choiceQuestion "What do leaves absorb?" ["light"; "water"; "air"; "soil"] "light"
    = JObj fields ∧
    ((fields !! js "questionType" = Some (JStr (js "multiple_choice")) ∧
      wellFormedOptions (fields !! js "options") ∧
      answerAmong (fields !! js "options") (fields !! js "correctAnswer")) ∨
     (fields !! js "questionType" = Some (JStr (js "fill_in_the_blank")) ∧
      fields !! js "options" = Some (JArr []))).
Proof.
  refine (accepted_questions_shape
            (quizOf [choiceQuestion "What do leaves absorb?"
                       ["light"; "water"; "air"; "soil"] "light"])
            (quizOf [choiceQuestion "What do leaves absorb?"
                       ["light"; "water"; "air"; "soil"] "light"]) _ _ _).
  - vm_compute. reflexivity.
  - vm_compute. left.
Defined.

(** Validation repairs and nothing else: the accepted quiz has the
    properties of the candidate other than its questions, as many
    questions in the same order, every multiple_choice question as it was,
    and every fill_in_the_blank question as it was but for its options. *)
Theorem validation_only_empties_blank_options quizData quiz :
  validateQuiz quizData = Ok quiz →
  (∀ k, k ≠ js "questions" → Json.getProp quiz k = Json.getProp quizData k) ∧
  Forall2 (λ q q',
             q' = q ∨
             (Json.getProp q (js "questionType")
                = Ok (Some (JStr (js "fill_in_the_blank"))) ∧
              q' = Json.setProp q (js "options") (JArr [])))
          (questionsOf quizData) (questionsOf quiz).
Proof.
  intros Hv.
  apply validateQuiz_Ok_inv in Hv as (fields & qs & qs' & -> & Hget & Hqs & ->).
  split.
  - intros k Hk. simpl. rewrite lookup_insert_ne by congruence. reflexivity.
  - unfold questionsOf. simpl. rewrite lookup_insert_eq, Hget.
    apply validateQuestions_Forall2 in Hqs.
    eapply Forall2_impl; [exact Hqs |]. intros q q' Hq. simpl in Hq.
    apply validateQuestion_Ok_inv in Hq as (qf & -> & [[_ ->] | [Hfb ->]]).
    + left. reflexivity.
    + right. simpl. split; [rewrite Hfb |]; reflexivity.
Qed.

Lemma validation_only_empties_blank_options_witness :
  (∀ k, k ≠ js "questions" →
     Json.getProp (quizOf [blankQuestion (JArr [])]) k
     = Json.getProp (quizOf [blankQuestion (strs ["chlorophyll"])]) k) ∧
  Forall2 (λ q q',
             q' = q ∨
             (Json.getProp q (js "questionType")
                = Ok (Some (JStr (js "fill_in_the_blank"))) ∧
              q' = Json.setProp q (js "options") (JArr [])))
          (questionsOf (quizOf [blankQuestion (strs ["chlorophyll"])]))
          (questionsOf (quizOf [blankQuestion (JArr [])])).
Proof.
  apply (validation_only_empties_blank_options
           (quizOf [blankQuestion (strs ["chlorophyll"])])
           (quizOf [blankQuestion (JArr [])])).
  vm_compute. reflexivity.
Defined.

(** Validation is idempotent: an accepted quiz passes validation again,
    and comes back as it is. *)
Theorem validation_idempotent quizData quiz :
  validateQuiz quizData = Ok quiz → validateQuiz quiz = Ok quiz.
Proof.
  intros Hv.
  apply validateQuiz_Ok_inv in Hv as (fields & qs & qs' & -> & _ & Hqs & ->).
  rewrite (validateQuiz_questions _ qs') by apply lookup_insert_eq.
  rewrite (validateQuestions_again _ _ Hqs). simpl.
  rewrite insert_insert_eq. reflexivity.
Qed.

Lemma validation_idempotent_witness :
  validateQuiz (quizOf [blankQuestion (JArr [])])
  = Ok (quizOf [blankQuestion (JArr [])]).
Proof.
  apply (validation_idempotent (quizOf [blankQuestion (strs ["chlorophyll"])])).
  vm_compute. reflexivity.
Defined.

(** ** Further properties of the session *)

(** An event changes only the cell it is about: the answers change on an
    answer only, the time left on a tick only (by one second, and only
    while time is left), the current question on a navigation only, and
    the pause flag on the pause buttons only. *)
Theorem events_change_their_own_cell p s e s' emitted :
  reachable p s → step p e s = Ok (s', emitted) → framed e s s'.
Proof.
  intros Hreach Hstep.
  exact (step_framed p e s s' emitted (reachable_invariant _ _ Hreach) Hstep).
Qed.

Lemma sampleState_reachable : reachable sampleProps sampleState.
Proof.
  apply (reachable_mount sampleProps sampleState []). vm_compute. reflexivity.
Qed.

Lemma lastQuestionState_reachable : reachable sampleProps lastQuestionState.
Proof.
  apply (reachable_step sampleProps sampleState Next lastQuestionState []).
  - exact sampleState_reachable.
  - vm_compute. reflexivity.
Qed.

Lemma events_change_their_own_cell_witness :
  framed (TranslateSettle (Some leavesQuestion) fourTranslations) sampleState
    (setIsTranslating false sampleState).
Proof.
  apply (events_change_their_own_cell sampleProps sampleState
           (TranslateSettle (Some leavesQuestion) fourTranslations)
           (setIsTranslating false sampleState) []).
  - exact sampleState_reachable.
  - vm_compute. reflexivity.
Defined.

(** *** Answers *)

Lemma spread_declared answers :
  Forall declaredAnswer answers → spread answers = answers.
Proof.
  unfold spread. induction 1 as [| a answers Ha _ IH]; [reflexivity |].
  cbn [fmap list_fmap]. f_equal; [| exact IH].
  destruct Ha as [-> | [t ->]]; reflexivity.
Qed.

Lemma assign_in_range answers i a :
  0 <= i < Z.of_nat (length answers) →
  assign answers i a = <[Z.to_nat i := a]> answers.
Proof.
  intros Hi. unfold assign. destruct (decide (i < 0)); [lia |].
  destruct (decide (Z.to_nat i < length answers)%nat); [reflexivity | lia].
Qed.

Lemma handleAnswerChange_declared p a s :
  renderable p s → Forall declaredAnswer (userAnswers s) →
  userAnswers (handleAnswerChange a s)
  = <[Z.to_nat (currentQuestionIndex s) := Str a]> (userAnswers s) ∧
  Forall declaredAnswer (userAnswers (handleAnswerChange a s)).
Proof.
  intros (Hlen & Hidx) Hdecl. unfold handleAnswerChange.
  cbn [userAnswers setUserAnswers].
  rewrite (spread_declared _ Hdecl), assign_in_range by lia.
  split; [reflexivity |]. apply Forall_insert; [exact Hdecl |].
  right. exists a. reflexivity.
Qed.

Lemma reachable_declared p s :
  reachable p s → Forall declaredAnswer (userAnswers s).
Proof.
  induction 1 as [s emitted Hm | s e s' emitted Hreach IH Hstep].
  - pose proof (mount_Ok_nonempty _ _ _ Hm) as Hne.
    rewrite (mount_nonempty p Hne),
      (timerEffect_spec _ _ (initial_renderable p Hne)) in Hm.
    injection Hm as <- _.
    cbn [userAnswers setTimerRunning initial].
    apply Forall_replicate. left. reflexivity.
  - pose proof (reachable_invariant _ _ Hreach) as Hinv.
    assert (Hcase : (∃ a, e = Answer a) ∨ (∀ a, e ≠ Answer a)).
    { destruct e; try (right; intros a0; discriminate). left. eauto. }
    destruct Hcase as [[a ->] | Hother].
    + cbn [step] in Hstep. destruct Hinv as (Hr & _).
      rewrite timerEffect_spec in Hstep
        by (apply handleAnswerChange_renderable; exact Hr).
      injection Hstep as <- _. cbn [userAnswers setTimerRunning].
      apply (handleAnswerChange_declared p a s Hr IH).
    + destruct (step_framed _ _ _ _ _ Hinv Hstep) as (Hsame & _).
      rewrite Hsame; [exact IH | exact Hother].
Qed.



Lemma count_differ_at (f g : nat → bool) i n :
  (i < n)%nat → (∀ j, j ≠ i → f j = g j) →
  Z.of_nat (length (filter (λ j, f j = true) (seq 0 n))) - point (f i)
  = Z.of_nat (length (filter (λ j, g j = true) (seq 0 n))) - point (g i).
Proof.
  intros Hi Hfg.
  replace n with (i + S (n - S i))%nat by lia.
  rewrite seq_app. cbn [seq]. rewrite !filter_app, !filter_cons, !length_app.
  cbn [Nat.add].
  rewrite (count_agree f g i 0) by (intros j Hj; apply Hfg; lia).
  pose proof (count_agree f g (n - S i) (S i)) as Hafter.
  destruct (f i), (g i); cbn [point];
    repeat (destruct (decide _); try congruence); cbn [length];
    rewrite Hafter by (intros j Hj; apply Hfg; lia); lia.
Qed.

(** Replacing one answer moves the count of matches by the point lost and
    the point won at that index. *)
Lemma exactMatches_insert qs answers i x old q :
  qs !! i = Some q → answers !! i = Some old → old ≠ Hole → x ≠ Hole →
  exactMatches qs (<[i := x]> answers)
  = exactMatches qs answers - point (answerMatches old q)
    + point (answerMatches x q).
Proof.
  intros Hq Hold Hh Hx. pose proof (lookup_lt_Some _ _ _ Hold) as Hi.
  unfold exactMatches. rewrite length_insert.
  pose proof (count_differ_at (matchAt qs (<[i := x]> answers))
                (matchAt qs answers) i (length answers) Hi) as H.
  assert (Hnew : matchAt qs (<[i := x]> answers) i = answerMatches x q).
  { apply matchAt_answerMatches;
      [apply list_lookup_insert_eq; exact Hi | exact Hx | exact Hq]. }
  rewrite Hnew in H.
  rewrite (matchAt_answerMatches _ _ _ _ _ Hold Hh Hq) in H.
  assert (Hsame : ∀ j, j ≠ i →
            matchAt qs (<[i := x]> answers) j = matchAt qs answers j).
  { intros j Hj. unfold matchAt. rewrite list_lookup_insert_ne by congruence.
    reflexivity. }
  specialize (H Hsame). lia.
Qed.

(** Every question is worth one point, won or lost by its own answer:
    the score [handleSubmit] computes after an answer to the current
    question is the score it computes before, less the point the old
    entry of that question had, plus the point the new answer earns. *)
Theorem answer_moves_score_by_one_point p s a q :
  reachable p s →
  questionAt p (currentQuestionIndex s) = Some q →
  ∃ old s' emitted t before t' after,
    userAnswers s !! Z.to_nat (currentQuestionIndex s) = Some old ∧
    step p (Answer a) s = Ok (s', emitted) ∧
    handleSubmit p s = Ok (t, before) ∧
    handleSubmit p s' = Ok (t', after) ∧
    scoreFrom (questions p) 0 (userAnswers s) 0 = Ok (QuizResult.score before) ∧
    scoreFrom (questions p) 0 (userAnswers s') 0 = Ok (QuizResult.score after) ∧
    QuizResult.score after
    = QuizResult.score before - point (answerMatches old q)
      + point (answerMatches (Str a) q).
Proof.
  intros Hreach Hq. destruct (reachable_invariant _ _ Hreach) as (Hr & _).
  pose proof Hr as (Hlen & Hidx).
  pose proof (reachable_declared _ _ Hreach) as Hdecl.
  destruct (handleAnswerChange_declared p a s Hr Hdecl) as (Heq & _).
  destruct (lookup_lt_is_Some_2 (userAnswers s) (Z.to_nat (currentQuestionIndex s)))
    as [old Hold]; [lia |].
  assert (Hh : old ≠ Hole).
  { apply list_elem_of_lookup_2 in Hold.
    destruct (proj1 (Forall_forall _ _) Hdecl old Hold) as [-> | [t ->]];
      discriminate. }
  pose proof (handleAnswerChange_renderable p a s Hr) as Hr'.
  assert (Hstep : step p (Answer a) s
                  = Ok (setTimerRunning
                          (negb (isPaused (handleAnswerChange a s))
                           && negb (Number.leb (timeLeft (handleAnswerChange a s))
                                      (Number.Int 0)))
                          (handleAnswerChange a s),
                        if negb (isPaused (handleAnswerChange a s))
                           && Number.leb (timeLeft (handleAnswerChange a s))
                                (Number.Int 0)
                        then [resultFor p (handleAnswerChange a s)] else [])).
  { cbn [step]. apply timerEffect_spec. exact Hr'. }
  eexists old, _, _, _, _, _, _. split; [exact Hold |].
  split; [exact Hstep |].
  split; [apply handleSubmit_spec; lia |].
  split; [apply handleSubmit_spec; destruct Hr' as [Hlen' _];
          cbn [userAnswers setTimerRunning]; lia |].
  cbn [QuizResult.score resultFor userAnswers setTimerRunning].
  split; [| split].
  - rewrite (scoreFrom_spec _ (userAnswers s)) with (index := 0%nat)
      by (reflexivity || lia). reflexivity.
  - destruct Hr' as [Hlen' _].
    rewrite (scoreFrom_spec _ (userAnswers (handleAnswerChange a s)))
      with (index := 0%nat) by (reflexivity || lia). reflexivity.
  - rewrite Heq. unfold questionAt in Hq.
    destruct (decide (0 <= currentQuestionIndex s)); [| discriminate].
    apply (exactMatches_insert _ _ _ (Str a) old q Hq Hold Hh). discriminate.
Qed.

Lemma answer_moves_score_by_one_point_witness :
  ∃ old s' emitted t before t' after,
    userAnswers lastQuestionState
      !! Z.to_nat (currentQuestionIndex lastQuestionState)
      = Some old ∧
    step sampleProps (Answer (js "chlorophyll")) lastQuestionState
      = Ok (s', emitted) ∧
    handleSubmit sampleProps lastQuestionState = Ok (t, before) ∧
    handleSubmit sampleProps s' = Ok (t', after) ∧
    scoreFrom (questions sampleProps) 0 (userAnswers lastQuestionState) 0
      = Ok (QuizResult.score before) ∧
    scoreFrom (questions sampleProps) 0 (userAnswers s') 0
      = Ok (QuizResult.score after) ∧
    QuizResult.score after
    = QuizResult.score before - point (answerMatches old pigmentQuestion)
      + point (answerMatches (Str (js "chlorophyll")) pigmentQuestion).
Proof.
  exact (answer_moves_score_by_one_point sampleProps lastQuestionState
           (js "chlorophyll") pigmentQuestion lastQuestionState_reachable
           eq_refl).
Defined.

(** *** Navigation *)

Lemma presses_next p n :
  ∀ s, 0 <= currentQuestionIndex s < Z.of_nat (length (questions p)) →
  ∃ s', run p (replicate n Next) s = Ok (s', []) ∧
        currentQuestionIndex s'
        = Z.min (currentQuestionIndex s + Z.of_nat n)
                (Z.of_nat (length (questions p)) - 1) ∧
        userAnswers s' = userAnswers s ∧ timeLeft s' = timeLeft s ∧
        isPaused s' = isPaused s ∧ timerRunning s' = timerRunning s.
Proof.
  induction n as [| n IH]; intros s Hidx.
  - exists s. split; [reflexivity |]. repeat split. lia.
  - cbn [replicate run step]. simpl.
    destruct (IH (goToNext p s)) as (s' & Hrun & Hi & Ha & Ht & Hp & Hr).
    { unfold goToNext, changeQuestion. destruct (decide _); [| exact Hidx].
      cbn [currentQuestionIndex setTranslatedContent setCurrentQuestionIndex]. lia. }
    exists s'. rewrite Hrun. simpl. split; [reflexivity |].
    rewrite Hi, Ha, Ht, Hp, Hr. unfold goToNext, changeQuestion.
    destruct (decide _);
      cbn [currentQuestionIndex userAnswers timeLeft isPaused timerRunning
           setTranslatedContent setCurrentQuestionIndex];
      repeat split; lia.
Qed.

Lemma presses_prev p n :
  ∀ s, 0 <= currentQuestionIndex s < Z.of_nat (length (questions p)) →
  ∃ s', run p (replicate n Prev) s = Ok (s', []) ∧
        currentQuestionIndex s' = Z.max (currentQuestionIndex s - Z.of_nat n) 0 ∧
        userAnswers s' = userAnswers s ∧ timeLeft s' = timeLeft s ∧
        isPaused s' = isPaused s ∧ timerRunning s' = timerRunning s.
Proof.
  induction n as [| n IH]; intros s Hidx.
  - exists s. split; [reflexivity |]. repeat split. lia.
  - cbn [replicate run step]. simpl.
    destruct (IH (goToPrev p s)) as (s' & Hrun & Hi & Ha & Ht & Hp & Hr).
    { unfold goToPrev, changeQuestion. destruct (decide _); [| exact Hidx].
      cbn [currentQuestionIndex setTranslatedContent setCurrentQuestionIndex]. lia. }
    exists s'. rewrite Hrun. simpl. split; [reflexivity |].
    rewrite Hi, Ha, Ht, Hp, Hr. unfold goToPrev, changeQuestion.
    destruct (decide _);
      cbn [currentQuestionIndex userAnswers timeLeft isPaused timerRunning
           setTranslatedContent setCurrentQuestionIndex];
      repeat split; lia.
Qed.

(** Navigation stops at the ends: [n] presses of Next lead to the current
    index plus [n], or to the last question if that is nearer, [n]
    presses of Previous to the index minus [n], or to the first; neither
    emits a result or touches the answers, the time left, the pause or
    the timer; and Next followed by as many Previous returns to the
    question it started from, unless it ran into the last one. *)
Theorem navigation_stops_at_the_ends p s n :
  reachable p s →
  let last := Z.of_nat (length (questions p)) - 1 in
  ∃ forth back there,
    run p (replicate n Next) s = Ok (forth, []) ∧
    currentQuestionIndex forth
      = Z.min (currentQuestionIndex s + Z.of_nat n) last ∧
    run p (replicate n Prev) s = Ok (back, []) ∧
    currentQuestionIndex back = Z.max (currentQuestionIndex s - Z.of_nat n) 0 ∧
    run p (replicate n Prev) forth = Ok (there, []) ∧
    (currentQuestionIndex s + Z.of_nat n <= last →
     currentQuestionIndex there = currentQuestionIndex s) ∧
    userAnswers forth = userAnswers s ∧ timeLeft forth = timeLeft s ∧
    userAnswers back = userAnswers s ∧ timeLeft back = timeLeft s.
Proof.
  intros Hreach last.
  destruct (reachable_invariant _ _ Hreach) as ((_ & Hidx) & _).
  destruct (presses_next p n s Hidx) as (forth & Hf & Hfi & Hfa & Hft & _).
  destruct (presses_prev p n s Hidx) as (back & Hb & Hbi & Hba & Hbt & _).
  destruct (presses_prev p n forth) as (there & Ht & Hti & _).
  { rewrite Hfi. lia. }
  exists forth, back, there. repeat split; try assumption.
  intros Hroom. rewrite Hti, Hfi. unfold last in *. lia.
Qed.

Lemma navigation_stops_at_the_ends_witness :
  ∃ forth back there,
    run sampleProps (replicate 3 Next) sampleState = Ok (forth, []) ∧
    currentQuestionIndex forth
      = Z.min (currentQuestionIndex sampleState + Z.of_nat 3)
              (Z.of_nat (length (questions sampleProps)) - 1) ∧
    run sampleProps (replicate 3 Prev) sampleState = Ok (back, []) ∧
    currentQuestionIndex back
      = Z.max (currentQuestionIndex sampleState - Z.of_nat 3) 0 ∧
    run sampleProps (replicate 3 Prev) forth = Ok (there, []) ∧
    (currentQuestionIndex sampleState + Z.of_nat 3
       <= Z.of_nat (length (questions sampleProps)) - 1 →
     currentQuestionIndex there = currentQuestionIndex sampleState) ∧
    userAnswers forth = userAnswers sampleState ∧
    timeLeft forth = timeLeft sampleState ∧
    userAnswers back = userAnswers sampleState ∧
    timeLeft back = timeLeft sampleState.
Proof.
  exact (navigation_stops_at_the_ends sampleProps sampleState 3
           sampleState_reachable).
Defined.

(** *** The countdown *)



Lemma run_app p events1 events2 s :
  run p (events1 ++ events2)%list s =
  ('(s1, emitted1) ← run p events1 s;
   '(s2, emitted2) ← run p events2 s1;
   Ok (s2, (emitted1 ++ emitted2)%list)).
Proof.
  revert s. induction events1 as [| e events1 IH]; intros s.
  - cbn [app run]. simpl. destruct (run p events2 s) as [[s2 em2] |]; reflexivity.
  - cbn [app run]. destruct (step p e s) as [[s1 em1] |]; [| reflexivity].
    simpl. rewrite IH.
    destruct (run p events1 s1) as [[s2 em2] |]; [| reflexivity]. simpl.
    destruct (run p events2 s2) as [[s3 em3] |]; [| reflexivity]. simpl.
    rewrite app_assoc. reflexivity.
Qed.

Lemma setTimeLeft_running t s :
  timerRunning s = true → setTimerRunning true (setTimeLeft t s) = setTimeLeft t s.
Proof. destruct s. cbn. intros ->. reflexivity. Qed.

(** Before the time is up, [n] ticks of the running countdown take [n]
    seconds off a time left of at most 2^53, change nothing else and emit
    nothing. *)
Lemma ticks_before_expiry p n :
  ∀ s t, renderable p s → isPaused s = false → timerRunning s = true →
    timeLeft s = Number.Int t → Z.of_nat n < t <= 2 ^ 53 →
    run p (replicate n Tick) s
    = Ok (setTimeLeft (Number.Int (t - Z.of_nat n)) s, []).
Proof.
  induction n as [| n IH]; intros s t Hr Hp Hrun Ht Hn.
  - cbn [replicate run]. replace (t - Z.of_nat 0) with t by lia.
    rewrite <- Ht. destruct s; reflexivity.
  - assert (Hr1 : renderable p (setTimeLeft (Number.Int (t - 1)) s)) by exact Hr.
    cbn [replicate run step]. rewrite Hrun, Ht, sub_one by lia.
    rewrite (timerEffect_spec _ _ Hr1).
    cbn [isPaused timeLeft setTimeLeft]. rewrite Hp. cbn [negb andb Number.leb].
    replace (t - 1 <=? 0) with false by (symmetry; apply Z.leb_gt; lia).
    cbn [negb]. rewrite (setTimeLeft_running _ _ Hrun). simpl.
    rewrite (IH _ (t - 1));
      [| exact Hr1 | exact Hp | exact Hrun | reflexivity | lia].
    simpl. replace (t - 1 - Z.of_nat n) with (t - Z.of_nat (S n)) by lia.
    destruct s; reflexivity.
Qed.

(** Left alone, a running session with a time left of at most 2^53
    submits itself on the tick that takes the time left to 0, with the
    answers it has then: the ticks before emit nothing, that tick emits
    one result, whose time taken is the seconds of the session, and
    stops the timer, so that later ticks change nothing. A render of App
    while the screen is still mounted runs the effect again, and every
    such render submits the same result again. *)
Theorem countdown_submits_at_zero p s t :
  reachable p s → isPaused s = false → timerRunning s = true →
  timeLeft s = Number.Int t → t <= 2 ^ 53 →
  let expired := setTimerRunning false (setTimeLeft (Number.Int 0) s) in
  (∀ n, Z.of_nat n < t →
     run p (replicate n Tick) s
     = Ok (setTimeLeft (Number.Int (t - Z.of_nat n)) s, [])) ∧
  run p (replicate (Z.to_nat t) Tick) s = Ok (expired, [resultFor p expired]) ∧
  QuizResult.timeTaken (resultFor p expired) = seconds p ∧
  QuizResult.userAnswers (resultFor p expired) = userAnswers s ∧
  (∀ n, run p (replicate n Tick) expired = Ok (expired, [])) ∧
  (∀ n, run p (replicate n ParentRender) expired
        = Ok (expired, replicate n (resultFor p expired))).
Proof.
  intros Hreach Hp Hrun Ht Hsafe expired.
  destruct (reachable_invariant _ _ Hreach) as (Hr & Htimer).
  destruct (Htimer Hrun) as [_ Hpos]. rewrite Ht in Hpos.
  cbn [Number.leb] in Hpos. apply Z.leb_gt in Hpos.
  split; [intros n Hn; apply (ticks_before_expiry p n s t); auto; lia |].
  split; [| split; [| split; [reflexivity | split]]].
  - replace (Z.to_nat t) with (Z.to_nat (t - 1) + 1)%nat by lia.
    rewrite replicate_add, run_app.
    rewrite (ticks_before_expiry p _ s t) by (auto; lia). simpl.
    rewrite Hrun. cbn [timeLeft setTimeLeft].
    replace (t - Z.of_nat (Z.to_nat (t - 1))) with 1 by lia.
    change (Number.sub (Number.Int 1) (Number.Int 1)) with (Number.Int 0).
    rewrite timerEffect_spec by exact Hr.
    cbn [isPaused timeLeft setTimeLeft]. rewrite Hp. simpl.
    destruct s; reflexivity.
  - pose proof (reachable_onTheClock _ _ Hreach) as Hclock.
    unfold onTheClock in Hclock. cbn [QuizResult.timeTaken resultFor].
    unfold expired. cbn [timeLeft setTimerRunning setTimeLeft].
    destruct (seconds p) as [| negative | total] eqn:Hs;
      [rewrite Ht in Hclock; discriminate ..|].
    destruct Hclock as (t' & Ht' & Hb). rewrite Ht in Ht'. injection Ht' as <-.
    destruct Hb as [[Hn Heq] | [Hb _]]; [lia |].
    cbn [Number.sub]. rewrite Z.sub_0_r. apply round_representable; [lia |].
    apply (seconds_representable p); [exact Hs | lia].
  - induction n as [| n IH]; [reflexivity |].
    cbn [replicate run step]. unfold expired at 1.
    cbn [timerRunning setTimerRunning]. simpl. rewrite IH. reflexivity.
  - induction n as [| n IH]; [reflexivity |].
    cbn [replicate run step]. rewrite timerEffect_spec by exact Hr.
    unfold expired at 1 2 3 4.
    cbn [isPaused timeLeft setTimerRunning setTimeLeft]. rewrite Hp. simpl.
    change (setTimerRunning false
              (setTimerRunning false (setTimeLeft (Number.Int 0) s)))
      with expired.
    rewrite IH. reflexivity.
Qed.

Lemma countdown_submits_at_zero_witness :
  run sampleProps (replicate (Z.to_nat 60) Tick) sampleState
  = Ok (setTimerRunning false (setTimeLeft (Number.Int 0) sampleState),
        [resultFor sampleProps
           (setTimerRunning false (setTimeLeft (Number.Int 0) sampleState))]).
Proof.
  refine (proj1 (proj2 (countdown_submits_at_zero sampleProps sampleState 60
                          sampleState_reachable eq_refl eq_refl eq_refl _))).
  vm_compute. discriminate.
Defined.

(** Pausing a running session and resuming it, by either button, gives
    back the very state it was paused in, and emits nothing. *)
Theorem pause_then_resume_restores p s :
  reachable p s → isPaused s = false → timerRunning s = true →
  run p [TogglePause; TogglePause] s = Ok (s, []) ∧
  run p [TogglePause; Resume] s = Ok (s, []).
Proof.
  intros Hreach Hp Hrun.
  destruct (reachable_invariant _ _ Hreach) as (Hr & Htimer).
  destruct (Htimer Hrun) as [_ Hpos].
  assert (Hpause : step p TogglePause s
                   = Ok (setTimerRunning false (setIsPaused true s), [])).
  { cbn [step]. rewrite Hp. rewrite timerEffect_spec by exact Hr. reflexivity. }
  assert (Hback : timerEffect p (setIsPaused false
                                   (setTimerRunning false (setIsPaused true s)))
                  = Ok (s, [])).
  { rewrite timerEffect_spec by exact Hr.
    cbn [isPaused timeLeft setIsPaused setTimerRunning negb andb].
    rewrite Hpos. destruct s. cbn in *. subst. reflexivity. }
  split; cbn [run]; rewrite Hpause; simpl; rewrite Hback; reflexivity.
Qed.

Lemma pause_then_resume_restores_witness :
  run sampleProps [TogglePause; TogglePause] sampleState = Ok (sampleState, []) ∧
  run sampleProps [TogglePause; Resume] sampleState = Ok (sampleState, []).
Proof.
  exact (pause_then_resume_restores sampleProps sampleState
           sampleState_reachable eq_refl eq_refl).
Defined.

(** ** Further properties of the translation *)

(** A reply that holds one translation per text fills the overlay of a
    multiple_choice question: the first translation is the question, the
    others are the options, in the order of the options; no alert is
    raised and the translating flag is reset. *)
Theorem translation_fills_overlay p s q text result items :
  questionAt p (currentQuestionIndex s) = Some q →
  Question.questionType q = Question.multiple_choice →
  Json.getProp result (js "translations") = Ok (Some (JArr items)) →
  length items = S (length (Question.options q)) →
  ∃ translatedQuestion translatedOptions,
    items = translatedQuestion :: translatedOptions ∧
    length translatedOptions = length (Question.options q) ∧
    handleTranslate p (ProviderText text (Some result)) s
    = (setIsTranslating false
         (setTranslatedContent
            (Some {| question := translatedQuestion;
                     options := Some translatedOptions |})
            (translateStart s)),
       false).
Proof.
  intros Hq Hmc Hget Hlen.
  destruct items as [| tq topts]; [discriminate |].
  exists tq, topts. split; [reflexivity |].
  split; [cbn [length] in Hlen; lia |].
  unfold handleTranslate.
  change (currentQuestionIndex (translateStart s)) with (currentQuestionIndex s).
  rewrite Hq. unfold translateSettle, translateOutcome, translateInput, translateText.
  rewrite Hmc, Hget. cbn [Json.truthy Json.isArray andb].
  assert (Hsame : length (tq :: topts) = length (textsToTranslate q)).
  { unfold textsToTranslate. cbn [length] in *. lia. }
  rewrite !(bool_decide_eq_true_2 _ Hsame). reflexivity.
Qed.

Lemma translation_fills_overlay_witness :
  ∃ translatedQuestion translatedOptions,
    [JStr (js "q"); JStr (js "a"); JStr (js "b"); JStr (js "c"); JStr (js "d")]
    = translatedQuestion :: translatedOptions ∧
    length translatedOptions = length (Question.options leavesQuestion) ∧
    handleTranslate sampleProps
      (ProviderText (js "")
         (Some (obj [("translations", strs ["q"; "a"; "b"; "c"; "d"])])))
      sampleState
    = (setIsTranslating false
         (setTranslatedContent
            (Some {| question := translatedQuestion;
                     options := Some translatedOptions |})
            (translateStart sampleState)),
       false).
Proof.
  apply (translation_fills_overlay sampleProps sampleState leavesQuestion);
    reflexivity.
Defined.



(** A translation that settles after the user has moved on is shown all
    the same: started on one question and settled after Next, the overlay
    holds the translation of the question left behind while the next
    question is the current one. *)
Theorem late_translation_is_shown p s q reply content :
  reachable p s →
  questionAt p (currentQuestionIndex s) = Some q →
  currentQuestionIndex s + 1 < Z.of_nat (length (questions p)) →
  translateOutcome (Some q) reply = Some content →
  ∃ s',
    run p [TranslateStart; Next; TranslateSettle (Some q) reply] s = Ok (s', []) ∧
    currentQuestionIndex s' = currentQuestionIndex s + 1 ∧
    translatedContent s' = Some content.
Proof.
  intros Hreach Hq Hroom Hout.
  destruct (reachable_invariant _ _ Hreach) as ((_ & Hidx & _) & _).
  eexists. cbn [run step]. simpl. split; [reflexivity |].
  unfold translateSettle. rewrite Hout. unfold goToNext, changeQuestion.
  cbn [currentQuestionIndex translateStart setTranslatedContent
       setShowTranslateModal setIsTranslating].
  destruct (decide _) as [_ | Hno].
  - split; reflexivity.
  - exfalso. apply Hno. lia.
Qed.

Lemma late_translation_is_shown_witness :
  ∃ s',
    run sampleProps
      [TranslateStart; Next;
       TranslateSettle (Some leavesQuestion)
         (ProviderText (js "")
            (Some (obj [("translations", strs ["q"; "a"; "b"; "c"; "d"])])))]
      sampleState
    = Ok (s', []) ∧
    currentQuestionIndex s' = currentQuestionIndex sampleState + 1 ∧
    translatedContent s'
    = Some {| question := JStr (js "q");
              options := Some [JStr (js "a"); JStr (js "b");
                               JStr (js "c"); JStr (js "d")] |}.
Proof.
  apply (late_translation_is_shown sampleProps sampleState leavesQuestion).
  - exact sampleState_reachable.
  - reflexivity.
  - vm_compute. reflexivity.
  - vm_compute. reflexivity.
Defined.

(** ** Further properties of strings: [trim], [split] and [join] *)

Lemma trimStart_elem x s : x ∈ JsString.trimStart s → x ∈ s.
Proof.
  induction s as [| c s IH]; simpl; [auto |].
  destruct (JsString.isWhiteSpace c); [| auto]. intros H. right. auto.
Qed.

Lemma trim_elem x s : x ∈ JsString.trim s → x ∈ s.
Proof.
  unfold JsString.trim, JsString.trimEnd. rewrite elem_of_reverse. intros H.
  apply trimStart_elem in H. rewrite elem_of_reverse in H.
  apply trimStart_elem in H. exact H.
Qed.

Lemma trimStart_suffix s : ∃ pre, s = (pre ++ JsString.trimStart s)%list.
Proof.
  induction s as [| c s [pre IH]]; simpl; [exists []; reflexivity |].
  destruct (JsString.isWhiteSpace c).
  - exists (c :: pre). cbn [app]. rewrite <- IH. reflexivity.
  - exists []. reflexivity.
Qed.

Lemma trimStart_fixed s :
  (∀ c rest, s = c :: rest → JsString.isWhiteSpace c = false) →
  JsString.trimStart s = s.
Proof.
  destruct s as [| c s]; [reflexivity |]. intros H. simpl.
  rewrite (H c s eq_refl). reflexivity.
Qed.

Lemma trimStart_idem s :
  JsString.trimStart (JsString.trimStart s) = JsString.trimStart s.
Proof.
  apply trimStart_fixed. intros c rest H. exact (trimStart_head _ _ _ H).
Qed.

(** A trimmed string has no white space at either end. *)
Lemma trim_ends s :
  JsString.trimStart (JsString.trim s) = JsString.trim s ∧
  JsString.trimStart (reverse (JsString.trim s)) = reverse (JsString.trim s).
Proof.
  unfold JsString.trim, JsString.trimEnd.
  set (u := JsString.trimStart s).
  set (v := JsString.trimStart (reverse u)). split.
  - apply trimStart_fixed. intros c rest Hc.
    destruct (trimStart_suffix (reverse u)) as [pre Hpre]. fold v in Hpre.
    apply (f_equal reverse) in Hpre.
    rewrite reverse_involutive, reverse_app, Hc in Hpre.
    apply (trimStart_head s c (rest ++ reverse pre)%list). exact Hpre.
  - rewrite reverse_involutive. apply trimStart_idem.
Qed.

Lemma trim_fixed t :
  JsString.trimStart t = t → JsString.trimStart (reverse t) = reverse t →
  JsString.trim t = t.
Proof.
  intros H1 H2. unfold JsString.trim, JsString.trimEnd.
  rewrite H1, H2. apply reverse_involutive.
Qed.

Lemma trim_idem s : JsString.trim (JsString.trim s) = JsString.trim s.
Proof. destruct (trim_ends s) as [H1 H2]. apply trim_fixed; assumption. Qed.

Lemma split_cons_ne sep c s :
  c ≠ sep →
  JsStringOps.split sep (c :: s)
  = match JsStringOps.split sep s with
    | piece :: pieces => (c :: piece) :: pieces
    | [] => [[c]]
    end.
Proof. intros H. simpl. rewrite bool_decide_eq_false_2 by exact H. reflexivity. Qed.

Lemma split_no_sep sep s : sep ∉ s → JsStringOps.split sep s = [s].
Proof.
  induction s as [| c s IH]; intros H; [reflexivity |].
  apply not_elem_of_cons in H as [Hc Hs].
  rewrite split_cons_ne by congruence. rewrite (IH Hs). reflexivity.
Qed.

Lemma split_app_sep sep a b :
  sep ∉ a →
  JsStringOps.split sep (a ++ sep :: b)%list = a :: JsStringOps.split sep b.
Proof.
  induction a as [| c a IH]; intros H.
  - simpl. rewrite bool_decide_eq_true_2 by reflexivity. reflexivity.
  - apply not_elem_of_cons in H as [Hc Ha]. cbn [app].
    rewrite split_cons_ne by congruence. rewrite (IH Ha). reflexivity.
Qed.

Lemma split_pieces sep s :
  JsStringOps.split sep s ≠ [] ∧
  Forall (λ piece, sep ∉ piece) (JsStringOps.split sep s).
Proof.
  induction s as [| c s [Hne IH]].
  - split; [discriminate |]. repeat constructor. apply not_elem_of_nil.
  - simpl. destruct (bool_decide (c = sep)) eqn:Hc.
    + split; [discriminate |]. constructor; [apply not_elem_of_nil | exact IH].
    + apply bool_decide_eq_false in Hc.
      destruct (JsStringOps.split sep s) as [| piece pieces]; [congruence |].
      split; [discriminate |]. apply Forall_cons in IH as [Hp Hps].
      constructor; [| exact Hps]. apply not_elem_of_cons.
      split; [congruence | exact Hp].
Qed.

(** ** Further properties of the tags of a result *)

Lemma trim_split_space s :
  JsString.trim <$> JsStringOps.split 0x2C (0x20%N :: s)
  = JsString.trim <$> JsStringOps.split 0x2C s.
Proof.
  rewrite split_cons_ne by discriminate.
  destruct (split_pieces 0x2C s) as [Hne _].
  destruct (JsStringOps.split 0x2C s) as [| piece pieces]; [congruence |].
  reflexivity.
Qed.

Lemma trim_split_join tags :
  Forall cleanTag tags → tags ≠ [] →
  JsString.trim <$> JsStringOps.split 0x2C (JsStringOps.join (js ", ") tags)
  = tags.
Proof.
  induction 1 as [| t tags (_ & Htrim & Hcomma) Hall IH]; [congruence |].
  intros _. destruct tags as [| t' tags].
  - cbn [JsStringOps.join]. rewrite split_no_sep by exact Hcomma.
    cbn [fmap list_fmap]. rewrite Htrim. reflexivity.
  - change (JsStringOps.join (js ", ") (t :: t' :: tags))
      with (t ++ 0x2C%N :: 0x20%N :: JsStringOps.join (js ", ") (t' :: tags))%list.
    rewrite split_app_sep by exact Hcomma. rewrite fmap_cons, trim_split_space.
    rewrite Htrim, IH by discriminate. reflexivity.
Qed.

Lemma filter_clean tags :
  Forall cleanTag tags → filter (λ t : jsstring, t ≠ []) tags = tags.
Proof.
  induction 1 as [| t tags (Hne & _) _ IH]; [reflexivity |].
  rewrite filter_cons, IH. destruct (decide (t ≠ [])); [reflexivity | tauto].
Qed.

Lemma parseTags_clean tags : Forall cleanTag (ResultsScreen.parseTags tags).
Proof.
  apply Forall_forall. intros t Hin. unfold ResultsScreen.parseTags in Hin.
  apply list_elem_of_filter in Hin as [Hne Hin].
  apply list_elem_of_fmap in Hin as (piece & -> & Hpiece).
  split; [exact Hne |]. split; [apply trim_idem |].
  intros Hcomma. apply trim_elem in Hcomma.
  destruct (split_pieces 0x2C tags) as [_ Hall].
  rewrite Forall_forall in Hall. exact (Hall piece Hpiece Hcomma).
Qed.

(** The tags that [handleTagSave] stores are clean, whatever is typed:
    none is empty, none starts or ends with white space, none holds a
    comma. Clean tags make a round trip: the text the tags input starts
    with, [tags.join(', ')], parses back to the same tags; so saving what
    was typed, reopening the result and saving again without editing
    changes nothing. *)
Theorem saved_tags_round_trip :
  (∀ typed, Forall cleanTag (ResultsScreen.parseTags typed)) ∧
  (∀ tags, Forall cleanTag tags →
     ResultsScreen.parseTags (JsStringOps.join (js ", ") tags) = tags) ∧
  (∀ typed r,
     let saved := ResultsScreen.withTags (ResultsScreen.parseTags typed) r in
     ResultsScreen.parseTags (ResultsScreen.initialTags saved)
     = QuizResult.tags saved).
Proof.
  assert (Hrt : ∀ tags, Forall cleanTag tags →
            ResultsScreen.parseTags (JsStringOps.join (js ", ") tags) = tags).
  { intros tags Hall. unfold ResultsScreen.parseTags.
    destruct tags as [| t tags]; [reflexivity |].
    rewrite trim_split_join by (exact Hall || discriminate).
    apply filter_clean. exact Hall. }
  split; [exact parseTags_clean |]. split; [exact Hrt |]. intros typed r saved.
  unfold ResultsScreen.initialTags, saved. cbn [QuizResult.tags ResultsScreen.withTags].
  apply Hrt. apply parseTags_clean.
Qed.

Lemma saved_tags_round_trip_witness :
  ResultsScreen.parseTags (JsStringOps.join (js ", ") [js "biology"; js "week 3"])
  = [js "biology"; js "week 3"].
Proof.
  apply (proj1 (proj2 saved_tags_round_trip)).
  repeat constructor; try discriminate; vm_compute; intros H;
    repeat (apply elem_of_cons in H as [H | H]; [discriminate H |]);
    inversion H.
Defined.

Example parseTags_sample :
  ResultsScreen.parseTags (js " biology ,, week 3,  ,exam")
  = [js "biology"; js "week 3"; js "exam"].
Proof. vm_compute. reflexivity. Qed.

(** ** Further properties of the stored results and folders *)

Lemma apply_consistent op store :
  Store.consistent store → Store.consistent (Store.apply op store).
Proof.
  destruct store as [results folders]. intros [Hunc Hall].
  cbn [fst snd] in *. destruct op; cbn [Store.apply fst snd].
  - split; [exact Hunc |]. intros r Hin. cbn [fst] in Hin.
    unfold App.handleQuizComplete in Hin.
    apply elem_of_cons in Hin as [-> | Hin]; [| auto].
    exists HistoryScreen.uncategorized. split; [exact Hunc | reflexivity].
  - split; [exact Hunc |]. intros r Hin. cbn [fst] in Hin.
    unfold ResultsScreen.handleTagSave in Hin.
    apply list_elem_of_fmap in Hin as (r0 & -> & Hin0).
    destruct (Hall r0 Hin0) as (f & Hf & Hid). exists f. split; [exact Hf |].
    destruct (decide _); [rewrite Hid |]; auto.
  - unfold HistoryScreen.handleCreateFolder. destruct (bool_decide _).
    + split; assumption.
    + split; [apply elem_of_app; left; exact Hunc |].
      intros r Hin. destruct (Hall r Hin) as (f & Hf & Hid).
      exists f. split; [apply elem_of_app; left; exact Hf | exact Hid].
  - split; [exact Hunc |]. intros r Hin. cbn [fst] in Hin.
    unfold HistoryScreen.handleDeleteResult in Hin. destruct confirmed; [| auto].
    apply list_elem_of_filter in Hin as [_ Hin]. auto.
  - unfold HistoryScreen.handleDeleteAll. destruct confirmed.
    + split; [left |]. intros r Hin. inversion Hin.
    + split; assumption.
  - destruct (HistoryScreen.moveTargets activeFolderId folders !! target)
      as [f |] eqn:Hf; [| split; assumption].
    assert (Hfin : f ∈ folders).
    { apply list_elem_of_lookup_2 in Hf. unfold HistoryScreen.moveTargets in Hf.
      apply list_elem_of_filter in Hf as [_ Hf]. exact Hf. }
    split; [exact Hunc |]. intros r Hin. cbn [fst] in Hin.
    unfold HistoryScreen.handleMoveResult in Hin.
    apply list_elem_of_fmap in Hin as (r0 & -> & Hin0).
    destruct (decide _).
    + exists f. split; [exact Hfin | reflexivity].
    + auto.
Qed.

(** The store the app writes is always consistent: whatever is
    completed, tagged, created, deleted or moved, in any order, from a
    first visit or from any consistent store, the uncategorized folder
    is still there and every stored result is in a folder that exists. *)
Theorem store_stays_consistent :
  Store.consistent Store.fresh ∧
  ∀ ops store,
    Store.consistent store →
    Store.consistent (fold_left (λ st op, Store.apply op st) ops store).
Proof.
  split.
  - split; [left |]. intros r Hin. inversion Hin.
  - induction ops as [| op ops IH]; intros store Hc; [exact Hc |].
    cbn [fold_left]. apply IH. apply apply_consistent. exact Hc.
Qed.

Lemma store_stays_consistent_witness :
  Store.consistent
    (fold_left (λ st op, Store.apply op st)
       [Store.Complete (js "1000") (resultFor sampleProps sampleState);
        Store.CreateFolder (js "1001") (js " Biology ");
        Store.MoveResult (js "1000") (js "uncategorized") 0;
        Store.DeleteAll true]
       Store.fresh).
Proof.
  refine (proj2 store_stays_consistent _ _ _).
  exact (proj1 store_stays_consistent).
Defined.






Example filteredResults_sample :
  let stored :=
    App.handleQuizComplete (js "1001") (resultFor sampleProps sampleState)
      (App.handleQuizComplete (js "1000") (resultFor sampleProps sampleState) []) in
  QuizResult.id <$>
    HistoryScreen.filteredResults JsStringOps.lowerAscii (λ _ l, reverse l)
      stored (js "synth") HistoryScreen.Oldest (js "uncategorized")
  = [js "1000"; js "1001"] ∧
  HistoryScreen.filteredResults JsStringOps.lowerAscii (λ _ l, reverse l)
    stored (js "chemistry") HistoryScreen.Oldest (js "uncategorized") = [] ∧
  QuizResult.id <$>
    HistoryScreen.filteredResults JsStringOps.lowerAscii (λ _ l, reverse l)
      (HistoryScreen.handleMoveResult (js "1000") (js "1002") stored)
      (js "") HistoryScreen.Oldest (js "uncategorized")
  = [js "1001"].
Proof. vm_compute. repeat split. Qed.

(** ** Further properties of a completed quiz *)

Lemma count_marks (f : nat → bool) qs :
  ∀ (g : nat → Question.t → bool) k,
    (∀ i q, qs !! i = Some q → g i q = f (k + i)%nat) →
    length (filter (λ b : bool, b = true) (imap g qs))
    = length (filter (λ j, f j = true) (seq k (length qs))).
Proof.
  induction qs as [| q qs IH]; intros g k Hfg; [reflexivity |].
  cbn [imap length seq]. rewrite !filter_cons.
  rewrite (Hfg 0%nat q eq_refl), Nat.add_0_r.
  assert (Hrest : length (filter (λ b : bool, b = true) (imap (g ∘ S) qs))
                  = length (filter (λ j, f j = true) (seq (S k) (length qs)))).
  { apply IH. intros i q' Hi. unfold compose.
    rewrite (Hfg (S i) q' Hi). f_equal. lia. }
  destruct (decide (f k = true)); cbn [length]; rewrite Hrest; reflexivity.
Qed.

(** The review of the results screen agrees with the score: it has one
    mark per question, and for every result a session emits the number
    of questions it marks correct is the score of the result. *)
Theorem review_marks_add_up_to_score p events :
  questions p ≠ [] →
  ∃ s emitted,
    session p events = Ok (s, emitted) ∧
    ∀ r, r ∈ emitted →
      length (ResultsScreen.reviewMarks r) = length (questions p) ∧
      Z.of_nat (length (filter (λ b : bool, b = true) (ResultsScreen.reviewMarks r)))
      = QuizResult.score r.
Proof.
  intros Hne.
  destruct (session_emits p events Hne) as (s & emitted & Hs & _ & Hem).
  exists s, emitted. split; [exact Hs |]. intros r Hin.
  destruct (Hem r Hin) as (s1 & Hreach & ->).
  destruct (reachable_invariant _ _ Hreach) as ((Hlen & _) & _).
  pose proof (reachable_declared _ _ Hreach) as Hdecl.
  unfold ResultsScreen.reviewMarks.
  cbn [QuizResult.quiz QuizResult.score resultFor]. fold (questions p).
  split; [apply length_imap |].
  unfold exactMatches. rewrite Hlen. f_equal.
  apply (count_marks (matchAt (questions p) (userAnswers s1))
           (questions p) _ 0%nat).
  intros i q Hq.
  destruct (lookup_lt_is_Some_2 (userAnswers s1) i) as [a Ha].
  { rewrite Hlen. apply (lookup_lt_Some _ _ _ Hq). }
  unfold ResultsScreen.isCorrect, matchAt.
  cbn [QuizResult.userAnswers resultFor Nat.add]. rewrite Hq, Ha.
  apply list_elem_of_lookup_2 in Ha.
  destruct (proj1 (Forall_forall _ _) Hdecl a Ha) as [-> | [t ->]];
    cbn [default strictEq];
    destruct (Question.correctAnswer q) as [[] |]; reflexivity.
Qed.

Lemma review_marks_add_up_to_score_witness :
  ∃ s emitted,
    session sampleProps [Answer (js "light"); Next; Submit] = Ok (s, emitted) ∧
    ∀ r, r ∈ emitted →
      length (ResultsScreen.reviewMarks r) = length (questions sampleProps) ∧
      Z.of_nat (length (filter (λ b : bool, b = true) (ResultsScreen.reviewMarks r)))
      = QuizResult.score r.
Proof. apply (review_marks_add_up_to_score sampleProps). discriminate. Defined.

(** Retaking brings back the very quiz: the result that a submission
    stores is the one the results screen shows, and retaking it gives
    the quiz screen the quiz and the settings of the session that was
    submitted, so the retake starts from the same initial state. *)
Theorem retake_restores_the_quiz p s id stored st :
  reachable p s →
  ∃ s1 stored1 latest,
    submit id p (s, stored) = Ok (s1, stored1) ∧
    Retake.latestResult stored1 = Some latest ∧
    QuizResult.score latest = exactMatches (questions p) (userAnswers s) ∧
    Retake.quizScreenProps (Retake.handleRetakeQuiz latest st) = Some p.
Proof.
  intros Hreach. destruct (reachable_invariant _ _ Hreach) as ((Hlen & _) & _).
  unfold submit. cbn [fst snd]. rewrite handleSubmit_spec by lia.
  eexists _, _, _. split; [reflexivity |]. split; [reflexivity |].
  split; [reflexivity |]. destruct p. reflexivity.
Qed.

Lemma retake_restores_the_quiz_witness :
  ∃ s1 stored1 latest,
    submit (js "1000") sampleProps (lastQuestionState, []) = Ok (s1, stored1) ∧
    Retake.latestResult stored1 = Some latest ∧
    QuizResult.score latest
      = exactMatches (questions sampleProps) (userAnswers lastQuestionState) ∧
    Retake.quizScreenProps
      (Retake.handleRetakeQuiz latest
         {| Retake.quizSettings := None; Retake.currentQuiz := None |})
    = Some sampleProps.
Proof.
  exact (retake_restores_the_quiz sampleProps lastQuestionState (js "1000") []
           {| Retake.quizSettings := None; Retake.currentQuiz := None |}
           lastQuestionState_reachable).
Defined.

(** ** Further properties of the uploaded document *)

Lemma split_after_sep sep a b :
  last (JsStringOps.split sep (a ++ sep :: b)%list)
  = last (JsStringOps.split sep b) ∧
  (2 ≤ length (JsStringOps.split sep (a ++ sep :: b)%list))%nat.
Proof.
  destruct (split_pieces sep b) as [Hb _].
  induction a as [| c a [IHlast IHlen]].
  - cbn [app JsStringOps.split]. rewrite bool_decide_eq_true_2 by reflexivity.
    destruct (JsStringOps.split sep b) as [| piece pieces]; [congruence |].
    split; [reflexivity | cbn [length]; lia].
  - cbn [app JsStringOps.split].
    destruct (JsStringOps.split sep (a ++ sep :: b)%list)
      as [| piece [| piece' pieces]]; cbn [length] in IHlen; try lia.
    destruct (bool_decide (c = sep)); (split; [exact IHlast | cbn [length]; lia]).
Qed.

Lemma lowerAscii_split sep s :
  JsStringOps.lowerAscii (sep :: []) = sep :: [] →
  (∀ c, JsStringOps.lowerAscii [c] = [sep] → c = sep) →
  JsStringOps.split sep (JsStringOps.lowerAscii s)
  = JsStringOps.lowerAscii <$> JsStringOps.split sep s.
Proof.
  intros Hsep Honly. induction s as [| c s IH]; [reflexivity |].
  change (JsStringOps.lowerAscii (c :: s))
    with (JsStringOps.lowerAscii [c] ++ JsStringOps.lowerAscii s)%list.
  destruct (decide (c = sep)) as [-> | Hc].
  - rewrite Hsep. cbn [app JsStringOps.split].
    rewrite !bool_decide_eq_true_2 by reflexivity. rewrite IH. reflexivity.
  - assert (Hc' : ∃ c', JsStringOps.lowerAscii [c] = [c'] ∧ c' ≠ sep).
    { eexists. split; [reflexivity |]. intros Heq. apply Hc, Honly.
      cbn [JsStringOps.lowerAscii fmap list_fmap] in *. congruence. }
    destruct Hc' as (c' & Hlow & Hne). rewrite Hlow. cbn [app].
    rewrite !split_cons_ne by assumption. rewrite IH.
    destruct (split_pieces sep s) as [Hsome _].
    destruct (JsStringOps.split sep s) as [| piece pieces]; [congruence |].
    cbn [fmap list_fmap]. f_equal.
    change (JsStringOps.lowerAscii (c :: piece))
      with (JsStringOps.lowerAscii [c] ++ JsStringOps.lowerAscii piece)%list.
    rewrite Hlow. reflexivity.
Qed.

Lemma split_isAscii sep s :
  JsStringOps.isAscii s → Forall JsStringOps.isAscii (JsStringOps.split sep s).
Proof.
  unfold JsStringOps.isAscii. induction 1 as [| c s Hc _ IH].
  - repeat constructor.
  - cbn [JsStringOps.split]. destruct (bool_decide (c = sep)).
    + constructor; [constructor | exact IH].
    + destruct (JsStringOps.split sep s) as [| piece pieces];
        [repeat constructor; exact Hc |].
      apply Forall_cons in IH as [Hp Hps]. repeat constructor; assumption.
Qed.

Lemma getMimeType_ascii toLowerCase fileName :
  (∀ s, JsStringOps.isAscii s → toLowerCase s = JsStringOps.lowerAscii s) →
  JsStringOps.isAscii fileName →
  getMimeType toLowerCase fileName
  = match last (JsStringOps.split 0x2E (JsStringOps.lowerAscii fileName)) with
    | Some extension => mimeTypeOf extension
    | None => js "application/octet-stream"
    end.
Proof.
  intros Hlow Hascii. unfold getMimeType.
  rewrite lowerAscii_split.
  - rewrite fmap_last.
    pose proof (split_isAscii 0x2E fileName Hascii) as Hall.
    destruct (last (JsStringOps.split 0x2E fileName)) as [piece |] eqn:Hlast;
      [| reflexivity].
    cbn [fmap option_fmap option_map]. rewrite Hlow; [reflexivity |].
    rewrite Forall_forall in Hall. apply Hall.
    apply last_Some in Hlast as [l' ->]. apply elem_of_app. right. left.
  - reflexivity.
  - intros c H. cbn [JsStringOps.lowerAscii fmap list_fmap] in H.
    destruct ((65 <=? c)%N && (c <=? 90)%N) eqn:Hup; [| congruence].
    apply andb_true_iff in Hup as [H1 H2].
    apply N.leb_le in H1, H2. injection H as H. lia.
Qed.

(** The mime type of an uploaded file is read off what follows the last
    dot of its name, whatever comes before; a name with no dot counts as
    its own extension; for names of ASCII characters the case of the
    letters does not matter; and the type is one of the four the code
    names. *)
Theorem mime_type_reads_last_extension toLowerCase :
  (∀ s, JsStringOps.isAscii s → toLowerCase s = JsStringOps.lowerAscii s) →
  (∀ stem rest,
     getMimeType toLowerCase (stem ++ 0x2E%N :: rest)%list
     = getMimeType toLowerCase rest) ∧
  (∀ extension, JsStringOps.isAscii extension → (0x2E)%N ∉ extension →
     getMimeType toLowerCase extension
     = mimeTypeOf (JsStringOps.lowerAscii extension)) ∧
  (∀ a b, JsStringOps.isAscii a → JsStringOps.isAscii b →
     JsStringOps.lowerAscii a = JsStringOps.lowerAscii b →
     getMimeType toLowerCase a = getMimeType toLowerCase b) ∧
  (∀ fileName,
     getMimeType toLowerCase fileName
     ∈ [js "application/pdf";
        js "application/vnd.openxmlformats-officedocument.wordprocessingml.document";
        js "text/plain"; js "application/octet-stream"]).
Proof.
  intros Hlow. split; [| split; [| split]].
  - intros stem rest. unfold getMimeType.
    rewrite (proj1 (split_after_sep 0x2E stem rest)). reflexivity.
  - intros extension Hascii Hdot. unfold getMimeType.
    rewrite split_no_sep by exact Hdot. cbn [last fmap option_fmap option_map].
    rewrite (Hlow _ Hascii). reflexivity.
  - intros a b Ha Hb Hab.
    rewrite !getMimeType_ascii by assumption. rewrite Hab. reflexivity.
  - intros fileName. unfold getMimeType.
    destruct (toLowerCase <$> last _) as [extension |];
      repeat (destruct (bool_decide _)); set_solver.
Qed.

Lemma mime_type_reads_last_extension_witness :
  getMimeType JsStringOps.lowerAscii (js "notes.final" ++ 0x2E%N :: js "PDF")%list
  = getMimeType JsStringOps.lowerAscii (js "PDF") ∧
  getMimeType JsStringOps.lowerAscii (js "PDF")
  = mimeTypeOf (JsStringOps.lowerAscii (js "PDF")).
Proof.
  destruct (mime_type_reads_last_extension JsStringOps.lowerAscii
              (λ s _, eq_refl)) as (Hlast & Hext & _).
  split; [apply Hlast |]. apply Hext.
  - vm_compute. repeat constructor.
  - vm_compute. intros H.
    repeat (apply elem_of_cons in H as [H | H]; [discriminate H |]).
    inversion H.
Defined.

Example getMimeType_samples :
  getMimeType JsStringOps.lowerAscii (js "Report.v2.DocX")
  = js "application/vnd.openxmlformats-officedocument.wordprocessingml.document" ∧
  getMimeType JsStringOps.lowerAscii (js "txt") = js "text/plain" ∧
  getMimeType JsStringOps.lowerAscii (js "archive.pdf.") = js "application/octet-stream" ∧
  getMimeType JsStringOps.lowerAscii (js "") = js "application/octet-stream".
Proof. repeat split; vm_compute; reflexivity. Qed.

(** [fileToBase64] resolves with what follows the first comma of the
    data URL, up to the next comma if there is one, and with [undefined]
    when the URL has no comma; an empty payload, as an empty file gives,
    is sent as no document at all. *)
Theorem data_url_payload :
  (∀ header payload, (0x2C)%N ∉ header → (0x2C)%N ∉ payload →
     fileToBase64 (header ++ 0x2C%N :: payload)%list = Some payload) ∧
  (∀ header payload rest, (0x2C)%N ∉ header → (0x2C)%N ∉ payload →
     fileToBase64 (header ++ 0x2C%N :: payload ++ 0x2C%N :: rest)%list
     = Some payload) ∧
  (∀ dataUrl, (0x2C)%N ∉ dataUrl → fileToBase64 dataUrl = None) ∧
  (∀ toLowerCase promptContent settings header,
     (0x2C)%N ∉ header →
     QuizSettings.documentContent settings
     = fileToBase64 (header ++ [0x2C%N])%list →
     requestContents toLowerCase promptContent settings = PromptOnly promptContent).
Proof.
  split; [| split; [| split]].
  - intros header payload Hh Hp. unfold fileToBase64.
    rewrite split_app_sep by exact Hh. rewrite split_no_sep by exact Hp.
    reflexivity.
  - intros header payload rest Hh Hp. unfold fileToBase64.
    rewrite split_app_sep by exact Hh. rewrite split_app_sep by exact Hp.
    reflexivity.
  - intros dataUrl H. unfold fileToBase64. rewrite split_no_sep by exact H.
    reflexivity.
  - intros toLowerCase promptContent settings header Hh Hdoc.
    unfold requestContents. rewrite Hdoc. unfold fileToBase64.
    rewrite split_app_sep by exact Hh. reflexivity.
Qed.

Lemma data_url_payload_witness :
  fileToBase64 (js "data:text/plain;base64" ++ 0x2C%N :: js "aGVsbG8=")%list
  = Some (js "aGVsbG8=").
Proof.
  apply (proj1 data_url_payload); vm_compute; intros H;
    repeat (apply elem_of_cons in H as [H | H]; [discriminate H |]);
    inversion H.
Defined.

(** ** Further properties of the clock *)

Lemma js_String c s : js (String c s) = N_of_ascii c :: js s.
Proof. reflexivity. Qed.

Lemma digits_of_uint d :
  Forall isDigit (js (NilEmpty.string_of_uint d)) ∧
  ∀ a, fold_left (λ acc c, 10 * acc + (Z.of_N c - 48))
         (js (NilEmpty.string_of_uint d)) (Z.of_N (Unsigned.of_lu a))
       = Z.of_N (Unsigned.of_lu (Decimal.revapp d a)).
Proof.
  unfold isDigit.
  induction d as [| d [IHd IH] | d [IHd IH] | d [IHd IH] | d [IHd IH]
                  | d [IHd IH] | d [IHd IH] | d [IHd IH] | d [IHd IH]
                  | d [IHd IH] | d [IHd IH]];
    cbn [NilEmpty.string_of_uint Decimal.revapp];
    [split; [constructor | reflexivity] | ..];
    rewrite js_String;
    (split; [constructor; [vm_compute; split; discriminate | exact IHd] |]);
    intros a; cbn [fold_left]; rewrite <- IH; f_equal;
    cbn [Unsigned.of_lu];
    match goal with
    | |- context [N_of_ascii ?c] =>
        let n := eval vm_compute in (N_of_ascii c) in
        change (N_of_ascii c) with n
    end; lia.
Qed.

Lemma decimal_digits n :
  0 <= n →
  Forall isDigit (decimal n) ∧ digitsValue (decimal n) = n.
Proof.
  intros Hn. unfold decimal, digitsValue.
  destruct n as [| p | p]; [| | lia].
  - split; [| reflexivity]. repeat constructor; vm_compute; discriminate.
  - cbn [Z.to_int NilZero.string_of_int].
    assert (Hnil : NilZero.string_of_uint (Pos.to_uint p)
                   = NilEmpty.string_of_uint (Pos.to_uint p)).
    { pose proof (Unsigned.to_uint_nonnil p) as H.
      destruct (Pos.to_uint p); [congruence | reflexivity ..]. }
    rewrite Hnil. destruct (digits_of_uint (Pos.to_uint p)) as [Hd Hv].
    split; [exact Hd |]. specialize (Hv Decimal.Nil).
    change (Z.of_N (Unsigned.of_lu Decimal.Nil)) with 0 in Hv. rewrite Hv.
    change (Decimal.revapp (Pos.to_uint p) Decimal.Nil)
      with (Decimal.rev (Pos.to_uint p)).
    rewrite <- Unsigned.of_uint_alt, Unsigned.of_to. reflexivity.
Qed.

Lemma padStart_digits k s :
  Forall isDigit s →
  Forall isDigit (JsStringOps.padStart k 0x30 s) ∧
  digitsValue (JsStringOps.padStart k 0x30 s) = digitsValue s ∧
  (k ≤ length (JsStringOps.padStart k 0x30 s))%nat.
Proof.
  intros Hs. unfold JsStringOps.padStart. split; [| split].
  - apply Forall_app. split; [| exact Hs].
    apply Forall_replicate. unfold isDigit. lia.
  - unfold digitsValue. rewrite fold_left_app. f_equal.
    induction (k - length s)%nat as [| m IH]; [reflexivity | exact IH].
  - rewrite length_app, length_replicate. lia.
Qed.

Lemma seconds_two_places n :
  0 <= n < 60 →
  length (JsStringOps.padStart 2 0x30 (decimal n)) = 2%nat.
Proof.
  intros Hn.
  assert (Hall : forallb
            (λ k, Nat.eqb (length (JsStringOps.padStart 2 0x30
                                     (decimal (Z.of_nat k)))) 2)
            (seq 0 60) = true) by (vm_compute; reflexivity).
  rewrite forallb_forall in Hall. specialize (Hall (Z.to_nat n)).
  rewrite Z2Nat.id in Hall by lia. apply Nat.eqb_eq, Hall.
  apply in_seq. lia.
Qed.

(** The clock shows the time left. Where integers up to 2^53 are printed
    in decimal digits and their quotient by 60 is floored exactly, the
    text for a time left between 0 and 2^53 is minutes, a colon and
    seconds, all digits, the minutes on two places or more and the
    seconds on exactly two; the seconds are below 60, and minutes and
    seconds read back as the time. *)
Theorem clock_shows_the_time toString floorOfSixtieth seconds :
  printsDecimal toString → floorsSixtieth floorOfSixtieth →
  0 <= seconds <= 2 ^ 53 →
  ∃ mm ss,
    formatTime toString floorOfSixtieth (Number.Int seconds)
    = (mm ++ 0x3A%N :: ss)%list ∧
    Forall isDigit mm ∧ Forall isDigit ss ∧
    (2 ≤ length mm)%nat ∧ length ss = 2%nat ∧
    0 <= digitsValue ss < 60 ∧
    60 * digitsValue mm + digitsValue ss = seconds.
Proof.
  intros Hprint Hfloor Hs.
  assert (Hm : 0 <= seconds / 60) by (apply Z.div_pos; lia).
  assert (Hr : Z.rem seconds 60 = seconds mod 60) by (apply Z.rem_mod_nonneg; lia).
  pose proof (Z.mod_pos_bound seconds 60 ltac:(lia)) as Hbound.
  pose proof (Z.div_mod seconds 60 ltac:(lia)) as Hdm.
  destruct (decimal_digits (seconds / 60) Hm) as [Hmd Hmv].
  destruct (decimal_digits (seconds mod 60) ltac:(lia)) as [Hsd Hsv].
  destruct (padStart_digits 2 _ Hmd) as (Hmd' & Hmv' & Hmlen).
  destruct (padStart_digits 2 _ Hsd) as (Hsd' & Hsv' & _).
  exists (JsStringOps.padStart 2 0x30 (decimal (seconds / 60))),
         (JsStringOps.padStart 2 0x30 (decimal (seconds mod 60))).
  unfold formatTime. cbv zeta.
  rewrite Hfloor by (rewrite Z.abs_eq; lia).
  change (Number.rem (Number.Int seconds) (Number.Int 60))
    with (Number.Int (Z.rem seconds 60)).
  rewrite Hr, !Hprint by (rewrite Z.abs_eq; lia).
  split; [reflexivity |]. split; [exact Hmd' |]. split; [exact Hsd' |].
  split; [exact Hmlen |]. split; [apply seconds_two_places; lia |].
  rewrite Hmv', Hsv', Hmv, Hsv. lia.
Qed.

Lemma sample_clock_functions :
  printsDecimal sampleToString ∧ floorsSixtieth sampleFloorOfSixtieth.
Proof. split; intros z _; reflexivity. Qed.

Lemma clock_shows_the_time_witness :
  ∃ mm ss,
    formatTime sampleToString sampleFloorOfSixtieth (Number.Int 605)
    = (mm ++ 0x3A%N :: ss)%list ∧
    Forall isDigit mm ∧ Forall isDigit ss ∧
    (2 ≤ length mm)%nat ∧ length ss = 2%nat ∧
    0 <= digitsValue ss < 60 ∧
    60 * digitsValue mm + digitsValue ss = 605.
Proof.
  apply (clock_shows_the_time sampleToString sampleFloorOfSixtieth 605).
  - exact (proj1 sample_clock_functions).
  - exact (proj2 sample_clock_functions).
  - vm_compute. split; discriminate.
Defined.

Example formatTime_samples :
  formatTime sampleToString sampleFloorOfSixtieth (Number.Int 605) = js "10:05" ∧
  formatTime sampleToString sampleFloorOfSixtieth (Number.Int 59) = js "00:59" ∧
  formatTime sampleToString sampleFloorOfSixtieth (Number.Int 0) = js "00:00" ∧
  formatTime sampleToString sampleFloorOfSixtieth (Number.Int 6000) = js "100:00" ∧
  formatTime sampleToString sampleFloorOfSixtieth Number.NaN = js "NaN:NaN".
Proof. repeat split; vm_compute; reflexivity. Qed.
